(** * PointerJS: the pointer renderer and the onboarding flow sequencer

    A shallow embedding of [src/pointer.ts] (class [Pointer]) and
    [src/flow.ts] (class [FlowManager], function [startOnboarding]).

    Conventions of the embedding.
    - A finite JavaScript [number] is an exact rational ([Q]): the rounding
      of IEEE doubles is left out, so a statement here is about the code up
      to rounding.  Where the code divides, the quotient is a [Num], which
      adds the infinities and NaN that a zero divisor produces, with the
      IEEE rules for them.  The easing function is embedded a second time
      over binary64 floats ([ease64]), where rounding can be computed.
    - Comparisons of the source ([<], [>], [===]) are boolean tests.
    - Inline styles that the code assigns from a fixed set of literals are
      enumerations; lengths written as [`${v}px`] are [Px v], and the
      assignment of a length that is not a finite number is ignored, as the
      browser ignores an invalid declaration.
    - A mutable object is a record that is passed in and returned; the
      browser (window, timers, animation frames, listeners, console) is the
      record [Env].  A closure handed to the browser is stored as the data it
      captured ([Anim], [Task]) and run by the matching function.
    - A method of [FlowManager] yields the state it leaves and the
      exceptions that escaped from it ([Outcome]). *)

From Stdlib Require Import QArith Qminmax Lqa Lia List String Bool Arith.
From Stdlib Require Import Floats.
Import ListNotations.

Local Open Scope Q_scope.
Local Open Scope string_scope.
Local Open Scope list_scope.

(** ** Numbers and truthiness *)

Definition Qltb (a b : Q) : bool := negb (Qle_bool b a).
Definition Qgtb (a b : Q) : bool := Qltb b a.

(** *** Numbers that need not be finite

    The result of a division, and what is computed from it.  Finite values
    are exact; the zero of [Q] stands for +0. *)

Inductive Num := Fin (q : Q) | PInf | NInf | NaN.

(** [x / y] for finite [x] and [y]. *)
Definition divide (x y : Q) : Num :=
  if Qeq_bool y 0 then
    match Qcompare x 0 with
    | Gt => PInf
    | Eq => NaN
    | Lt => NInf
    end
  else Fin (x / y).

Definition Nneg (a : Num) : Num :=
  match a with
  | Fin x => Fin (- x)
  | PInf => NInf
  | NInf => PInf
  | NaN => NaN
  end.

Definition Nadd (a b : Num) : Num :=
  match a, b with
  | NaN, _ | _, NaN => NaN
  | Fin x, Fin y => Fin (x + y)
  | PInf, NInf | NInf, PInf => NaN
  | PInf, _ | _, PInf => PInf
  | NInf, _ | _, NInf => NInf
  end.

Definition Nsub (a b : Num) : Num := Nadd a (Nneg b).

(** An infinity times a finite number, by the sign of the number. *)
Definition scaleInf (inf : Num) (x : Q) : Num :=
  match Qcompare x 0 with
  | Gt => inf
  | Eq => NaN
  | Lt => Nneg inf
  end.

Definition Nmul (a b : Num) : Num :=
  match a, b with
  | NaN, _ | _, NaN => NaN
  | Fin x, Fin y => Fin (x * y)
  | Fin x, inf | inf, Fin x => scaleInf inf x
  | PInf, PInf | NInf, NInf => PInf
  | PInf, NInf | NInf, PInf => NInf
  end.

(** [Math.min(a, b)]. *)
Definition Nmin (a b : Num) : Num :=
  match a, b with
  | NaN, _ | _, NaN => NaN
  | NInf, _ | _, NInf => NInf
  | PInf, c | c, PInf => c
  | Fin x, Fin y => Fin (Qmin x y)
  end.

(** [a < b], [a > b], [a === b]: false as soon as one side is NaN. *)
Definition Nlt (a b : Num) : bool :=
  match a, b with
  | NaN, _ | _, NaN => false
  | Fin x, Fin y => Qltb x y
  | NInf, NInf | PInf, _ | _, NInf => false
  | NInf, _ | _, PInf => true
  end.
Definition Ngt (a b : Num) : bool := Nlt b a.
Definition Neq (a b : Num) : bool :=
  match a, b with
  | Fin x, Fin y => Qeq_bool x y
  | PInf, PInf | NInf, NInf => true
  | _, _ => false
  end.

Declare Scope num_scope.
Delimit Scope num_scope with num.
Infix "+" := Nadd : num_scope.
Infix "-" := Nsub : num_scope.
Infix "*" := Nmul : num_scope.
Infix "<?" := Nlt (at level 70) : num_scope.
Infix ">?" := Ngt (at level 70) : num_scope.
Infix "=?" := Neq (at level 70) : num_scope.

(** [note?: string] used as a condition: absent and empty are falsy. *)
Definition truthy (s : option string) : bool :=
  match s with
  | Some EmptyString => false
  | Some _ => true
  | None => false
  end.

(** [a || b] on an optional string. *)
Definition or_else (s : option string) (d : string) : string :=
  match s with
  | Some EmptyString => d
  | Some v => v
  | None => d
  end.

(** [a ?? b]. *)
Definition nullish {A} (v : option A) (d : A) : A :=
  match v with Some x => x | None => d end.

(** ** The DOM pieces the code touches *)

Inductive Display := DisplayUnset | DisplayNone | DisplayBlock.
Inductive Visibility := VisibilityUnset | VisibilityHidden | VisibilityVisible.
Inductive Opacity := OpacityUnset | Opacity0 | Opacity1.
Inductive Transition := TransitionEmpty | TransitionOpacity04.
Inductive Transform := TransformEmpty | ScaleX | ScaleY | ScaleXY.
Inductive Len := LenUnset | Px (v : Q).

Definition Display_eqb (a b : Display) : bool :=
  match a, b with
  | DisplayUnset, DisplayUnset | DisplayNone, DisplayNone
  | DisplayBlock, DisplayBlock => true
  | _, _ => false
  end.

(** An element of the host page, as returned by [document.querySelector]. *)
Definition Elem := nat.

Record Rect := mkRect {
  r_top : Q; r_bottom : Q; r_left : Q; r_right : Q
}.

(** The result of [document.querySelector(selector)]: the first matching
    element, [null], or a [SyntaxError] when the string is not a valid
    selector (the empty string, for one). *)
Inductive Lookup := Found (el : Elem) | NoMatch | InvalidSelector.

(** What the page answers when asked; the program never writes these.
    [pageRect] is an element's box in document coordinates, [noteBox] the
    [(offsetWidth, offsetHeight)] of the note bubble laid out with a text. *)
Record Page := mkPage {
  querySelector : string -> Lookup;
  pageRect : Elem -> Rect;
  noteBox : string -> Q * Q
}.

Inductive PointerStyle := Arrow | Hand | Circle.

Record PointerOptions := mkOptions {
  color : option string;
  fontFamily : option string;
  fontSize : option string;
  animationSpeed : option Q;
  pointerSize : option Q;
  pointerStyle : option PointerStyle
}.

Definition noOptions : PointerOptions :=
  mkOptions None None None None None None.

(** The [.pointer] element: its inline style. *)
Record PointerEl := mkPointerEl {
  pe_display : Display;
  pe_left : Len;
  pe_top : Len;
  pe_transform : Transform
}.

(** The [.note] element: text, inline style, [aria-label], and whether
    [focus()] was requested on it. *)
Record NoteEl := mkNoteEl {
  ne_text : string;
  ne_display : Display;
  ne_visibility : Visibility;
  ne_opacity : Opacity;
  ne_left : Len;
  ne_top : Len;
  ne_transition : Transition;
  ne_ariaLabel : option string;
  ne_focused : bool
}.

Record Pointer := mkPointer {
  options : PointerOptions;
  pointerEl : PointerEl;
  noteEl : NoteEl;
  attached : bool;            (* the container is a child of document.body *)
  currentX : Q;
  currentY : Q;
  animating : bool
}.

(** The variables an [animate] closure captured in [animateTo]. *)
Record Anim := mkAnim {
  a_x : Q; a_y : Q;
  a_note : option string;
  a_isFirstStep : bool;
  a_flip : bool;
  a_startX : Q; a_startY : Q;
  a_deltaX : Q; a_deltaY : Q;
  a_startTime : Q;
  a_duration : Q;
  a_pointerSize : Q;
  a_noteWidth : Q; a_noteHeight : Q
}.

(** Callbacks given to [setTimeout]. *)
Inductive Task :=
| Settle (target : Elem) (note : option string) (isFirstStep : bool)
         (viewportWidth viewportHeight : Q)   (* moveToElement, 300 ms *)
| Reveal                                      (* animate, 10 ms *)
| RunStepLater.                               (* runStep after a page load *)

Inductive Warning :=
| NoStepsProvided
| ElementNotFound (selector : string) (stepNumber : nat).

Record Env := mkEnv {
  innerWidth : Q;
  innerHeight : Q;
  scrollY : Q;
  pathname : string;
  href : option string;                (* last assignment to location.href *)
  bodyOverflow : string;               (* document.body.style.overflow *)
  clock : Q;                           (* performance.now() *)
  timers : list (Q * Task);            (* due time, callback *)
  frames : list Anim;                  (* requestAnimationFrame queue *)
  keydownListeners : list nat;         (* window 'keydown' *)
  clickListeners : list (Elem * nat);  (* 'click' on page elements *)
  loadListeners : nat;                 (* window 'DOMContentLoaded', once *)
  nextListener : nat;                  (* identity of the next closure *)
  console : list Warning
}.

(** *** Field updates *)

Definition with_pointerEl (f : PointerEl -> PointerEl) (p : Pointer) :=
  mkPointer (options p) (f (pointerEl p)) (noteEl p) (attached p)
            (currentX p) (currentY p) (animating p).
Definition with_noteEl (f : NoteEl -> NoteEl) (p : Pointer) :=
  mkPointer (options p) (pointerEl p) (f (noteEl p)) (attached p)
            (currentX p) (currentY p) (animating p).
Definition with_attached (b : bool) (p : Pointer) :=
  mkPointer (options p) (pointerEl p) (noteEl p) b
            (currentX p) (currentY p) (animating p).
Definition with_current (x y : Q) (p : Pointer) :=
  mkPointer (options p) (pointerEl p) (noteEl p) (attached p)
            x y (animating p).
Definition with_animating (b : bool) (p : Pointer) :=
  mkPointer (options p) (pointerEl p) (noteEl p) (attached p)
            (currentX p) (currentY p) b.

Definition pe_set_display d (e : PointerEl) :=
  mkPointerEl d (pe_left e) (pe_top e) (pe_transform e).
Definition pe_set_pos x y (e : PointerEl) :=
  mkPointerEl (pe_display e) (Px x) (Px y) (pe_transform e).
(** [el.style.left = `${v}px`]: a length that is not a finite number is an
    invalid declaration, and the style keeps its value. *)
Definition assignPx (v : Num) (old : Len) : Len :=
  match v with
  | Fin x => Px x
  | _ => old
  end.
Definition pe_assign_pos (x y : Num) (e : PointerEl) :=
  mkPointerEl (pe_display e) (assignPx x (pe_left e)) (assignPx y (pe_top e))
              (pe_transform e).
Definition pe_set_transform t (e : PointerEl) :=
  mkPointerEl (pe_display e) (pe_left e) (pe_top e) t.

Definition ne_set_text s (n : NoteEl) :=
  mkNoteEl s (ne_display n) (ne_visibility n) (ne_opacity n) (ne_left n)
           (ne_top n) (ne_transition n) (ne_ariaLabel n) (ne_focused n).
Definition ne_set_display d (n : NoteEl) :=
  mkNoteEl (ne_text n) d (ne_visibility n) (ne_opacity n) (ne_left n)
           (ne_top n) (ne_transition n) (ne_ariaLabel n) (ne_focused n).
Definition ne_set_visibility v (n : NoteEl) :=
  mkNoteEl (ne_text n) (ne_display n) v (ne_opacity n) (ne_left n)
           (ne_top n) (ne_transition n) (ne_ariaLabel n) (ne_focused n).
Definition ne_set_opacity o (n : NoteEl) :=
  mkNoteEl (ne_text n) (ne_display n) (ne_visibility n) o (ne_left n)
           (ne_top n) (ne_transition n) (ne_ariaLabel n) (ne_focused n).
Definition ne_set_pos x y (n : NoteEl) :=
  mkNoteEl (ne_text n) (ne_display n) (ne_visibility n) (ne_opacity n)
           (Px x) (Px y) (ne_transition n) (ne_ariaLabel n) (ne_focused n).
Definition ne_assign_pos (x y : Num) (n : NoteEl) :=
  mkNoteEl (ne_text n) (ne_display n) (ne_visibility n) (ne_opacity n)
           (assignPx x (ne_left n)) (assignPx y (ne_top n))
           (ne_transition n) (ne_ariaLabel n) (ne_focused n).
Definition ne_set_transition t (n : NoteEl) :=
  mkNoteEl (ne_text n) (ne_display n) (ne_visibility n) (ne_opacity n)
           (ne_left n) (ne_top n) t (ne_ariaLabel n) (ne_focused n).
Definition ne_set_ariaLabel a (n : NoteEl) :=
  mkNoteEl (ne_text n) (ne_display n) (ne_visibility n) (ne_opacity n)
           (ne_left n) (ne_top n) (ne_transition n) a (ne_focused n).
Definition ne_focus (n : NoteEl) :=
  mkNoteEl (ne_text n) (ne_display n) (ne_visibility n) (ne_opacity n)
           (ne_left n) (ne_top n) (ne_transition n) (ne_ariaLabel n) true.

Definition env_set_scrollY y (e : Env) :=
  mkEnv (innerWidth e) (innerHeight e) y (pathname e) (href e)
        (bodyOverflow e) (clock e) (timers e) (frames e)
        (keydownListeners e) (clickListeners e) (loadListeners e)
        (nextListener e) (console e).
Definition env_set_href h (e : Env) :=
  mkEnv (innerWidth e) (innerHeight e) (scrollY e) (pathname e) h
        (bodyOverflow e) (clock e) (timers e) (frames e)
        (keydownListeners e) (clickListeners e) (loadListeners e)
        (nextListener e) (console e).
Definition env_set_overflow o (e : Env) :=
  mkEnv (innerWidth e) (innerHeight e) (scrollY e) (pathname e) (href e)
        o (clock e) (timers e) (frames e)
        (keydownListeners e) (clickListeners e) (loadListeners e)
        (nextListener e) (console e).
Definition env_set_clock c (e : Env) :=
  mkEnv (innerWidth e) (innerHeight e) (scrollY e) (pathname e) (href e)
        (bodyOverflow e) c (timers e) (frames e)
        (keydownListeners e) (clickListeners e) (loadListeners e)
        (nextListener e) (console e).
Definition env_set_timers t (e : Env) :=
  mkEnv (innerWidth e) (innerHeight e) (scrollY e) (pathname e) (href e)
        (bodyOverflow e) (clock e) t (frames e)
        (keydownListeners e) (clickListeners e) (loadListeners e)
        (nextListener e) (console e).
Definition env_set_frames f (e : Env) :=
  mkEnv (innerWidth e) (innerHeight e) (scrollY e) (pathname e) (href e)
        (bodyOverflow e) (clock e) (timers e) f
        (keydownListeners e) (clickListeners e) (loadListeners e)
        (nextListener e) (console e).
Definition env_set_keydown k (e : Env) :=
  mkEnv (innerWidth e) (innerHeight e) (scrollY e) (pathname e) (href e)
        (bodyOverflow e) (clock e) (timers e) (frames e)
        k (clickListeners e) (loadListeners e)
        (nextListener e) (console e).
Definition env_set_clicks c (e : Env) :=
  mkEnv (innerWidth e) (innerHeight e) (scrollY e) (pathname e) (href e)
        (bodyOverflow e) (clock e) (timers e) (frames e)
        (keydownListeners e) c (loadListeners e)
        (nextListener e) (console e).
Definition env_set_load n (e : Env) :=
  mkEnv (innerWidth e) (innerHeight e) (scrollY e) (pathname e) (href e)
        (bodyOverflow e) (clock e) (timers e) (frames e)
        (keydownListeners e) (clickListeners e) n
        (nextListener e) (console e).
Definition env_set_next n (e : Env) :=
  mkEnv (innerWidth e) (innerHeight e) (scrollY e) (pathname e) (href e)
        (bodyOverflow e) (clock e) (timers e) (frames e)
        (keydownListeners e) (clickListeners e) (loadListeners e)
        n (console e).
Definition env_set_console c (e : Env) :=
  mkEnv (innerWidth e) (innerHeight e) (scrollY e) (pathname e) (href e)
        (bodyOverflow e) (clock e) (timers e) (frames e)
        (keydownListeners e) (clickListeners e) (loadListeners e)
        (nextListener e) c.

(** *** Browser services *)

(** [window.scrollTo({top, behavior: 'smooth'})]: the scroll position ends
    at [top]; the glide itself and the clamping to the document's height are
    not modelled. *)
Definition scrollTo (top : Q) (e : Env) : Env := env_set_scrollY top e.

(** [setTimeout(cb, delay)]. *)
Definition setTimeout (cb : Task) (delay : Q) (e : Env) : Env :=
  env_set_timers (timers e ++ [(clock e + delay, cb)]) e.

(** [requestAnimationFrame(animate)]. *)
Definition requestAnimationFrame (a : Anim) (e : Env) : Env :=
  env_set_frames (frames e ++ [a]) e.

(** [console.warn(...)]. *)
Definition warn (w : Warning) (e : Env) : Env :=
  env_set_console (console e ++ [w]) e.

(** [target.getBoundingClientRect()]: the box relative to the viewport. *)
Definition getBoundingClientRect (pg : Page) (e : Env) (el : Elem) : Rect :=
  let r := pageRect pg el in
  mkRect (r_top r - scrollY e) (r_bottom r - scrollY e) (r_left r) (r_right r).

(** [noteEl.offsetWidth], [noteEl.offsetHeight]: zero while the note has
    [display: none], else the size of the laid-out text. *)
Definition offsetWidth (pg : Page) (n : NoteEl) : Q :=
  match ne_display n with
  | DisplayNone => 0
  | _ => fst (noteBox pg (ne_text n))
  end.
Definition offsetHeight (pg : Page) (n : NoteEl) : Q :=
  match ne_display n with
  | DisplayNone => 0
  | _ => snd (noteBox pg (ne_text n))
  end.

(** ** class Pointer *)

Module Ptr.

(** [constructor(options = {})].  The style sheet and the SVG icon are
    functions of [options] alone and are not kept. *)
Definition new (opts : PointerOptions) (e : Env) : Pointer :=
  let o := mkOptions
             (Some (or_else (color opts) "#8BD3E6"))
             (Some (or_else (fontFamily opts) "inherit"))
             (Some (or_else (fontSize opts) "14px"))
             (Some (nullish (animationSpeed opts) 400))
             (Some (nullish (pointerSize opts) 32))
             (Some (nullish (pointerStyle opts) Arrow)) in
  let x := innerWidth e / 2 in
  let y := innerHeight e / 2 in
  mkPointer o
    (mkPointerEl DisplayUnset (Px x) (Px y) TransformEmpty)
    (mkNoteEl EmptyString DisplayNone VisibilityUnset OpacityUnset
              LenUnset LenUnset TransitionEmpty None false)
    true x y false.

Definition margin : Q := 8.

(** The six assignments that lay the note out off-screen to measure it
    (the same block in [moveToElement] and in [animateTo]). *)
Definition layOutForMeasure (note : string) (n : NoteEl) : NoteEl :=
  ne_set_pos (-9999) (-9999)
    (ne_set_opacity Opacity0
      (ne_set_visibility VisibilityHidden
        (ne_set_display DisplayBlock
          (ne_set_text note n)))).

(** [const ease = (t) => t < 0.5 ? 2 * t * t : -1 + (4 - 2 * t) * t]. *)
Definition ease (t : Num) : Num :=
  if (t <? Fin (1 # 2))%num then (Fin 2 * t * t)%num
  else (Fin (-1) + (Fin 4 - Fin 2 * t) * t)%num.

(** [Math.min((now - startTime) / duration, 1)]. *)
Definition elapsedAt (a : Anim) (now : Q) : Num :=
  Nmin (divide (now - a_startTime a) (a_duration a)) (Fin 1).

(** The frame callback [animate(now)] created by [animateTo]. *)
Definition animate (a : Anim) (now : Q) (p : Pointer) (e : Env)
  : Pointer * Env :=
  let elapsed := elapsedAt a now in
  let t := ease elapsed in
  let curX := (Fin (a_startX a) + Fin (a_deltaX a) * t)%num in
  let curY := (Fin (a_startY a) + Fin (a_deltaY a) * t)%num in
  let p := with_pointerEl (pe_assign_pos curX curY) p in
  let flipY := a_flip a in
  let '(p, e) :=
    if truthy (a_note a) then
      let offsetX := a_pointerSize a + 12 in
      let offsetY := a_pointerSize a + 8 in
      let noteTop := if a_flip a
                     then (curY - Fin (a_noteHeight a) - Fin 12)%num
                     else (curY + Fin offsetY)%num in
      let over := (curX + Fin offsetX + Fin (a_noteWidth a)
                   >? Fin (innerWidth e - margin))%num in
      let '(noteLeft, flipX) :=
        if over then (Fin (innerWidth e - a_noteWidth a - 12), true)
        else ((curX + Fin offsetX)%num, false) in
      let '(noteLeft, flipX) :=
        if over && a_flip a
        then (Fin (innerWidth e - a_noteWidth a - 12), true)
        else (noteLeft, flipX) in
      let p := with_noteEl
                 (fun n => ne_set_display DisplayBlock
                             (ne_assign_pos noteLeft noteTop n)) p in
      let p := with_pointerEl
                 (pe_set_transform
                    (if flipX && flipY then ScaleXY
                     else if flipX then ScaleX
                     else if flipY then ScaleY
                     else TransformEmpty)) p in
      let p := if negb (a_isFirstStep a)
               then with_noteEl
                      (fun n => ne_set_visibility VisibilityVisible
                                  (ne_set_opacity Opacity1 n)) p
               else p in
      if (elapsed =? Fin 1)%num then
        let e := if a_isFirstStep a then setTimeout Reveal 10 e else e in
        (with_noteEl ne_focus p, e)
      else (p, e)
    else
      let p := with_noteEl
                 (fun n => ne_set_ariaLabel None
                             (ne_set_display DisplayNone n)) p in
      (with_pointerEl (pe_set_transform TransformEmpty) p, e) in
  if (elapsed <? Fin 1)%num then (p, requestAnimationFrame a e)
  else (with_animating false (with_current (a_x a) (a_y a) p), e).

(** The 10 ms callback that reveals a first-step note. *)
Definition reveal (p : Pointer) : Pointer :=
  with_noteEl (fun n => ne_set_opacity Opacity1
                          (ne_set_visibility VisibilityVisible n)) p.

(** [private animateTo(x, y, note?, isFirstStep?, flip?)]. *)
Definition animateTo (pg : Page) (x y : Q) (note : option string)
    (isFirstStep flip : bool) (p : Pointer) (e : Env) : Pointer * Env :=
  if animating p then (p, e)
  else
    let p := with_animating true p in
    let duration := nullish (animationSpeed (options p)) 400 in
    let startX := currentX p in
    let startY := currentY p in
    let deltaX := x - startX in
    let deltaY := y - startY in
    let startTime := clock e in
    let pointerSize := nullish (pointerSize (options p)) 32 in
    let '(p, noteWidth, noteHeight) :=
      if truthy note then
        let p := with_noteEl (layOutForMeasure (or_else note EmptyString)) p in
        let w := offsetWidth pg (noteEl p) in
        let h := offsetHeight pg (noteEl p) in
        (with_noteEl (ne_set_ariaLabel note) p, w, h)
      else (p, 0, 0) in
    let p :=
      if isFirstStep && truthy note then
        with_noteEl (fun n => ne_set_visibility VisibilityHidden
                     (ne_set_transition TransitionOpacity04
                       (ne_set_opacity Opacity0 n))) p
      else if truthy note then
        with_noteEl (fun n => ne_set_visibility VisibilityVisible
                     (ne_set_transition TransitionEmpty
                       (ne_set_opacity Opacity1 n))) p
      else p in
    let a := mkAnim x y note isFirstStep flip startX startY deltaX deltaY
                    startTime duration pointerSize noteWidth noteHeight in
    (p, requestAnimationFrame a e).

(** The 300 ms callback of [moveToElement]; [viewportWidth] and
    [viewportHeight] are the values read when [moveToElement] was called. *)
Definition settle (pg : Page) (target : Elem) (note : option string)
    (isFirstStep : bool) (viewportWidth viewportHeight : Q)
    (p : Pointer) (e : Env) : Pointer * Env :=
  let updatedRect := getBoundingClientRect pg e target in
  let pointerSize := nullish (pointerSize (options p)) 32 in
  let '(p, noteHeight) :=
    if truthy note then
      let p := with_noteEl (layOutForMeasure (or_else note EmptyString)) p in
      let h := offsetHeight pg (noteEl p) in
      (p, if Qeq_bool h 0 then 48 else h)
    else (p, 48) in
  let offsetY := pointerSize + 8 in
  let flip := Qgtb (r_bottom updatedRect + offsetY + noteHeight)
                   (viewportHeight - margin) in
  let pointerX := r_right updatedRect - pointerSize in
  let pointerY := if flip then r_top updatedRect - pointerSize - margin
                  else r_bottom updatedRect + margin in
  let pointerX := Qmin pointerX (viewportWidth - pointerSize - margin) in
  let pointerY := Qmin pointerY (viewportHeight - pointerSize - margin) in
  let pointerX := Qmax margin pointerX in
  let pointerY := Qmax margin pointerY in
  animateTo pg pointerX pointerY note isFirstStep flip p e.

(** [moveToElement(target, note?, isFirstStep?)]. *)
Definition moveToElement (pg : Page) (target : Elem) (note : option string)
    (isFirstStep : bool) (p : Pointer) (e : Env) : Pointer * Env :=
  let rect := getBoundingClientRect pg e target in
  let viewportWidth := innerWidth e in
  let viewportHeight := innerHeight e in
  let e :=
    if Qltb (r_top rect) 0 then
      scrollTo (scrollY e + r_top rect - 100) e
    else if Qgtb (r_bottom rect) viewportHeight then
      scrollTo (scrollY e + r_bottom rect - viewportHeight + 100) e
    else e in
  (p, setTimeout (Settle target note isFirstStep viewportWidth viewportHeight)
                 300 e).

Definition hide (p : Pointer) : Pointer :=
  with_noteEl (ne_set_display DisplayNone)
    (with_pointerEl (pe_set_display DisplayNone) p).

Definition show (p : Pointer) : Pointer :=
  let p := with_pointerEl (pe_set_display DisplayBlock) p in
  if negb (Display_eqb (ne_display (noteEl p)) DisplayNone)
  then with_noteEl ne_focus p
  else p.

Definition setInitialPosition (x y : Q) (p : Pointer) : Pointer :=
  with_pointerEl (pe_set_pos x y) (with_current x y p).

Definition destroy (p : Pointer) : Pointer := with_attached false p.

End Ptr.

(** ** The easing function in double precision

    The same arrow function, with the operations of binary64 floats, which
    is what the code computes with. *)
Definition ease64 (t : float) : float :=
  if (t <? 0.5)%float then (2 * t * t)%float
  else (-1 + (4 - 2 * t) * t)%float.

(** The double that the literal [0.1] denotes. *)
Definition tenth : float := 0x1.999999999999ap-4%float.

(** ** class FlowManager *)

Record OnboardingStep := mkStep {
  element : string;
  note : string;
  url : option string
}.

Record FlowOptions := mkFlowOptions {
  keyboardNavigation : option bool
}.

Record FlowManager := mkFlow {
  steps : list OnboardingStep;
  pointer : option Pointer;
  currentStep : nat;
  running : bool;
  pointerOptions : PointerOptions;
  flowOptions : FlowOptions;
  keyHandler : option nat;          (* the listener closure, by identity *)
  _prevOverflow : option string
}.

(** The value a caller passes as [steps]; the type annotation is not
    enforced at run time, [start] tests [Array.isArray]. *)
Inductive StepsArg :=
| StepsArray (l : list OnboardingStep)
| NotAnArray.

Record MouseEvent := mkMouseEvent { clientX : Q; clientY : Q }.

(** The exceptions the code can raise: [TypeError] from the non-null
    assertion [this.pointer!] on [null], [SyntaxError] from
    [document.querySelector]. *)
Inductive Error := TypeError | SyntaxError.

(** What a call leaves behind: the state, and the exceptions that escaped
    from it (none when it returned).  Nothing in the code catches. *)
Definition Outcome : Type := (FlowManager * Env) * list Error.
Definition Returned (s : FlowManager * Env) : Outcome := (s, []).
Definition Threw (err : Error) (s : FlowManager * Env) : Outcome := (s, [err]).

Definition managerOf (o : Outcome) : FlowManager := fst (fst o).
Definition envOf (o : Outcome) : Env := snd (fst o).
Definition thrown (o : Outcome) : list Error := snd o.

(** Run [k] on the state that [o] left, keeping the exceptions of both: the
    browser reports an exception of a listener and calls the next one. *)
Definition andThen (o : Outcome) (k : FlowManager -> Env -> Outcome)
  : Outcome :=
  let '((f, e), errs) := o in
  let '(s, errs') := k f e in
  (s, errs ++ errs').

Definition fm_set_steps l (f : FlowManager) :=
  mkFlow l (pointer f) (currentStep f) (running f) (pointerOptions f)
         (flowOptions f) (keyHandler f) (_prevOverflow f).
Definition fm_set_pointer p (f : FlowManager) :=
  mkFlow (steps f) p (currentStep f) (running f) (pointerOptions f)
         (flowOptions f) (keyHandler f) (_prevOverflow f).
Definition fm_set_currentStep n (f : FlowManager) :=
  mkFlow (steps f) (pointer f) n (running f) (pointerOptions f)
         (flowOptions f) (keyHandler f) (_prevOverflow f).
Definition fm_set_running b (f : FlowManager) :=
  mkFlow (steps f) (pointer f) (currentStep f) b (pointerOptions f)
         (flowOptions f) (keyHandler f) (_prevOverflow f).
Definition fm_set_keyHandler k (f : FlowManager) :=
  mkFlow (steps f) (pointer f) (currentStep f) (running f) (pointerOptions f)
         (flowOptions f) k (_prevOverflow f).
Definition fm_set_prevOverflow o (f : FlowManager) :=
  mkFlow (steps f) (pointer f) (currentStep f) (running f) (pointerOptions f)
         (flowOptions f) (keyHandler f) o.

Module Flow.

Definition State : Type := FlowManager * Env.

(** [constructor(pointerOptions = {}, flowOptions = {})]. *)
Definition new (po : PointerOptions) (fo : FlowOptions) : FlowManager :=
  mkFlow [] None 0%nat false po
         (mkFlowOptions
            (Some (match keyboardNavigation fo with
                   | Some false => false
                   | _ => true
                   end)))
         None None.

(** [stop()]. *)
Definition stop (f : FlowManager) (e : Env) : State :=
  let f := fm_set_running false f in
  let f := match pointer f with
           | Some p => fm_set_pointer (Some (Ptr.hide p)) f
           | None => f
           end in
  let '(f, e) := match _prevOverflow f with
                 | Some o => (fm_set_prevOverflow None f, env_set_overflow o e)
                 | None => (f, e)
                 end in
  match keyHandler f with
  | Some k =>
      (fm_set_keyHandler None f,
       env_set_keydown (List.remove Nat.eq_dec k (keydownListeners e)) e)
  | None => (f, e)
  end.

(** [step.url && window.location.pathname !== step.url]. *)
Definition mustNavigate (step : OnboardingStep) (e : Env) : bool :=
  truthy (url step) && negb (String.eqb (pathname e) (or_else (url step) EmptyString)).

(** [private runStep()], over the steps from [currentStep] on: [rest] is
    [steps.slice(currentStep)], so an empty [rest] is
    [currentStep >= steps.length] and its head is [steps[currentStep]]. *)
Fixpoint runStepFrom (pg : Page) (rest : list OnboardingStep)
    (f : FlowManager) (e : Env) : Outcome :=
  match rest with
  | [] => Returned (stop f e)
  | step :: rest' =>
      if negb (running f) then Returned (stop f e)
      else if mustNavigate step e then
        Returned (f, env_set_load (S (loadListeners e))
                       (env_set_href (url step) e))
      else
        match querySelector pg (element step) with
        | InvalidSelector => Threw SyntaxError (f, e)
        | Found el =>
            match pointer f with
            | None => Threw TypeError (f, e)
            | Some p =>
                let p := Ptr.show p in
                let '(p, e) :=
                  Ptr.moveToElement pg el (Some (note step))
                                    (Nat.eqb (currentStep f) 0) p e in
                let next := nextListener e in
                Returned
                  (fm_set_pointer (Some p) f,
                   env_set_next (S next)
                     (env_set_clicks (clickListeners e ++ [(el, next)]) e))
            end
        | NoMatch =>
            let e := warn (ElementNotFound (element step)
                                           (currentStep f + 1)) e in
            (* this.advanceStep() *)
            runStepFrom pg rest' (fm_set_currentStep (S (currentStep f)) f) e
        end
  end.

Definition runStep (pg : Page) (f : FlowManager) (e : Env) : Outcome :=
  runStepFrom pg (skipn (currentStep f) (steps f)) f e.

(** [private advanceStep()]. *)
Definition advanceStep (pg : Page) (f : FlowManager) (e : Env) : Outcome :=
  runStep pg (fm_set_currentStep (S (currentStep f)) f) e.

(** [private goBackStep()]. *)
Definition goBackStep (pg : Page) (f : FlowManager) (e : Env) : Outcome :=
  if (0 <? currentStep f)%nat
  then runStep pg (fm_set_currentStep (Nat.pred (currentStep f)) f) e
  else Returned (f, e).

(** The closure assigned to [this.keyHandler] in [start]. *)
Definition onKeydown (pg : Page) (key : string) (f : FlowManager) (e : Env)
  : Outcome :=
  if negb (running f) then Returned (f, e)
  else if String.eqb key "Enter" || String.eqb key "ArrowRight"
  then advanceStep pg f e
  else if String.eqb key "ArrowLeft" then goBackStep pg f e
  else if String.eqb key "Escape" then Returned (stop f e)
  else Returned (f, e).

(** [start(steps)]. *)
Definition start (pg : Page) (arg : StepsArg) (f : FlowManager) (e : Env)
  : Outcome :=
  match arg with
  | NotAnArray | StepsArray [] => Returned (f, warn NoStepsProvided e)
  | StepsArray l =>
      let f := fm_set_running true
                 (fm_set_currentStep 0%nat (fm_set_steps l f)) in
      let f := match pointer f with
               | Some _ => f
               | None => fm_set_pointer (Some (Ptr.new (pointerOptions f) e)) f
               end in
      let f := fm_set_prevOverflow (Some (bodyOverflow e)) f in
      let e := env_set_overflow "hidden" e in
      let '(f, e) :=
        if nullish (keyboardNavigation (flowOptions f)) false then
          let k := nextListener e in
          (fm_set_keyHandler (Some k) f,
           env_set_next (S k)
             (env_set_keydown (keydownListeners e ++ [k]) e))
        else (f, e) in
      runStep pg f e
  end.

(** [setInitialPosition(x, y)]. *)
Definition setInitialPosition (x y : Q) (f : FlowManager) (e : Env)
  : FlowManager :=
  let p := match pointer f with
           | Some p => p
           | None => Ptr.new (pointerOptions f) e
           end in
  fm_set_pointer (Some (Ptr.setInitialPosition x y p)) f.

End Flow.

(** ** The singleton entry point *)

(** [startOnboarding(steps, pointerOptions = {}, event?, flowOptions = {})];
    [flowManager] is the module-level variable. *)
Definition startOnboarding (pg : Page) (arg : StepsArg)
    (po : PointerOptions) (event : option MouseEvent) (fo : FlowOptions)
    (flowManager : option FlowManager) (e : Env) : Outcome :=
  let f := match flowManager with
           | Some f => f
           | None => Flow.new po fo
           end in
  let f := match event with
           | Some ev =>
               let x := clientX ev - 16 in
               let y := clientY ev - 16 in
               Flow.setInitialPosition x y f e
           | None => f
           end in
  Flow.start pg arg f e.

(** ** The browser's event loop

    One callback runs to completion at a time.  [Loop] runs the callbacks
    that the code registered: timers, animation frames and listeners. *)

Module Loop.

(** Time passes. *)
Definition elapse (dt : Q) (e : Env) : Env := env_set_clock (clock e + dt) e.

(** The first timer that is due, and the queue without it. *)
Fixpoint popDue (now : Q) (ts : list (Q * Task))
  : option (Task * list (Q * Task)) :=
  match ts with
  | [] => None
  | (due, cb) :: ts' =>
      if Qle_bool due now then Some (cb, ts')
      else match popDue now ts' with
           | Some (t, rest) => Some (t, (due, cb) :: rest)
           | None => None
           end
  end.

(** *** A page that holds a bare [Pointer] *)

Definition runTask (pg : Page) (t : Task) (p : Pointer) (e : Env)
  : Pointer * Env :=
  match t with
  | Settle target note isFirstStep vw vh =>
      Ptr.settle pg target note isFirstStep vw vh p e
  | Reveal => (Ptr.reveal p, e)
  | RunStepLater => (p, e)
  end.

Definition fireTimer (pg : Page) (p : Pointer) (e : Env) : Pointer * Env :=
  match popDue (clock e) (timers e) with
  | Some (t, rest) => runTask pg t p (env_set_timers rest e)
  | None => (p, e)
  end.

Fixpoint runFrames (fs : list Anim) (now : Q) (p : Pointer) (e : Env)
  : Pointer * Env :=
  match fs with
  | [] => (p, e)
  | a :: fs' => let '(p, e) := Ptr.animate a now p e in runFrames fs' now p e
  end.

(** One animation frame: every queued callback is called with the frame's
    time stamp; callbacks they request wait for the next frame. *)
Definition frame (p : Pointer) (e : Env) : Pointer * Env :=
  runFrames (frames e) (clock e) p (env_set_frames [] e).

(** *** A page that holds a [FlowManager] *)

Definition onPointer (k : Pointer -> Env -> Pointer * Env)
    (f : FlowManager) (e : Env) : Flow.State :=
  match pointer f with
  | Some p => let '(p, e) := k p e in (fm_set_pointer (Some p) f, e)
  | None => (f, e)
  end.

Definition flowTimer (pg : Page) (f : FlowManager) (e : Env) : Outcome :=
  match popDue (clock e) (timers e) with
  | Some (RunStepLater, rest) => Flow.runStep pg f (env_set_timers rest e)
  | Some (t, rest) =>
      Returned (onPointer (runTask pg t) f (env_set_timers rest e))
  | None => Returned (f, e)
  end.

Definition flowFrame (f : FlowManager) (e : Env) : Flow.State :=
  onPointer frame f e.

(** A ['keydown'] event on the window: each listener of the snapshot [ks]
    that is still registered is called.  Every keydown listener the program
    registers is the [keyHandler] closure of the flow manager. *)
Fixpoint dispatchKeydown (pg : Page) (key : string) (ks : list nat)
    (f : FlowManager) (e : Env) : Outcome :=
  match ks with
  | [] => Returned (f, e)
  | k :: ks' =>
      if existsb (Nat.eqb k) (keydownListeners e) then
        andThen (Flow.onKeydown pg key f e) (dispatchKeydown pg key ks')
      else dispatchKeydown pg key ks' f e
  end.

Definition keydown (pg : Page) (key : string) (f : FlowManager) (e : Env)
  : Outcome :=
  dispatchKeydown pg key (keydownListeners e) f e.

Definition sameListener (a b : Elem * nat) : bool :=
  Nat.eqb (fst a) (fst b) && Nat.eqb (snd a) (snd b).

(** The [next] closure of [runStep]: detach itself, then advance. *)
Definition next (pg : Page) (l : Elem * nat) (f : FlowManager) (e : Env)
  : Outcome :=
  Flow.advanceStep pg f
    (env_set_clicks
       (filter (fun l' => negb (sameListener l l')) (clickListeners e)) e).

(** A ['click'] event on [el]. *)
Fixpoint dispatchClick (pg : Page) (el : Elem) (ls : list (Elem * nat))
    (f : FlowManager) (e : Env) : Outcome :=
  match ls with
  | [] => Returned (f, e)
  | l :: ls' =>
      if Nat.eqb (fst l) el && existsb (sameListener l) (clickListeners e) then
        andThen (next pg l f e) (dispatchClick pg el ls')
      else dispatchClick pg el ls' f e
  end.

Definition click (pg : Page) (el : Elem) (f : FlowManager) (e : Env)
  : Outcome :=
  dispatchClick pg el (clickListeners e) f e.

(** ['DOMContentLoaded']: each once-listener of [runStep] is removed and
    schedules [runStep] after 300 ms. *)
Definition loaded (e : Env) : Env :=
  Nat.iter (loadListeners e) (setTimeout RunStepLater 300)
           (env_set_load 0%nat e).

End Loop.

(** ** A sample page *)

Module Sample.

(** A 1000 x 800 viewport over a page with three elements:
    [#a] (element 1) inside the viewport, [#b] (element 2) below the fold,
    [#c] (element 3) inside the viewport. *)
Definition page : Page :=
  mkPage
    (fun s => if String.eqb s "#a" then Found 1%nat
              else if String.eqb s "#b" then Found 2%nat
              else if String.eqb s "#c" then Found 3%nat
              else if String.eqb s EmptyString then InvalidSelector
              else NoMatch)
    (fun el => match el with
               | 1%nat => mkRect 100 140 200 320
               | 2%nat => mkRect 1500 1540 200 320
               | _ => mkRect 300 340 500 620
               end)
    (fun s => (inject_Z (Z.of_nat (String.length s)) * 8 + 48, 44)).

Definition env0 : Env :=
  mkEnv 1000 800 0 "/" None EmptyString 0 [] [] [] [] 0%nat 0%nat [].

Definition pointer0 : Pointer := Ptr.new noOptions env0.

(** [pointer0.moveToElement(#a, 'A')], the 300 ms settle delay, and the
    first animation frame 16 ms later: the pointer is under way. *)
Definition underway : Pointer * Env :=
  let '(p, e) := Ptr.moveToElement page 1%nat (Some "A") false pointer0 env0 in
  let '(p, e) := Loop.fireTimer page p (Loop.elapse 300 e) in
  let '(p, e) := Loop.frame p (Loop.elapse 16 e) in
  (p, e).

End Sample.

Module FlowSample.

Definition stepA : OnboardingStep := mkStep "#a" "A" None.
Definition stepC : OnboardingStep := mkStep "#c" "C" None.
Definition stepMissing : OnboardingStep := mkStep "#missing" "X" None.

Definition flow0 : FlowManager := Flow.new noOptions (mkFlowOptions None).

(** A flow on its first step [#missing], as [start] leaves it just before
    it calls [runStep]. *)
Definition atMissing : Flow.State :=
  (mkFlow [stepMissing; stepA] (Some Sample.pointer0) 0%nat true noOptions
          (mkFlowOptions (Some true)) (Some 0%nat) (Some EmptyString),
   mkEnv 1000 800 0 "/" None "hidden" 0 [] [] [0%nat] [] 0%nat 1%nat []).

(** [start] twice without [stop] in between, then [stop]: the first key
    handler is still registered on the window. *)
Definition stoppedWithListener : Flow.State :=
  let '(f, e) :=
    fst (Flow.start Sample.page (StepsArray [stepA; stepC]) flow0 Sample.env0)
  in
  let '(f, e) := fst (Flow.start Sample.page (StepsArray [stepA; stepC]) f e)
  in
  Flow.stop f e.

(** [start([#a])] on a fresh manager: the flow waits on its last step. *)
Definition onLastStep : Flow.State :=
  fst (Flow.start Sample.page (StepsArray [stepA]) flow0 Sample.env0).

(** The options of the demo page. *)
Definition demoOptions : PointerOptions :=
  mkOptions (Some "#B1A2CA") (Some "Inter, sans-serif") (Some "16px")
            (Some 500) (Some 36) (Some Arrow).

End FlowSample.

(** ** Three sentences of the specification, as stated

    Each is refuted below on a concrete input; the theorems next to them
    state what the code does instead. *)

(** C8, as the claim states it: [ease(t) + ease(1 - t) === 1]. *)
Definition ease64_symmetric (t : float) : Prop :=
  (ease64 t + ease64 (1 - t) =? 1)%float = true.

(** C6, as the claim states it: after [hide(); show()] the pointer element
    is displayed, the note is displayed as it was before [hide()], and the
    current position is unchanged. *)
Definition hide_show_restores (p : Pointer) : Prop :=
  let p' := Ptr.show (Ptr.hide p) in
  pe_display (pointerEl p') = DisplayBlock /\
  ne_display (noteEl p') = ne_display (noteEl p) /\
  currentX p' = currentX p /\ currentY p' = currentY p.

(** C1, as the claim states it: a second [moveToElement] during an animation,
    together with its 300 ms callback, leaves the pointer element, the note
    and the scroll position as they were. *)
Definition second_move_unobservable (pg : Page) (target : Elem)
    (note : option string) (first : bool) (p : Pointer) (e : Env) : Prop :=
  animating p = true ->
  let s1 := Ptr.moveToElement pg target note first p e in
  let s2 := Loop.fireTimer pg (fst s1) (Loop.elapse 300 (snd s1)) in
  pointerEl (fst s2) = pointerEl p /\ noteEl (fst s2) = noteEl p /\
  scrollY (snd s2) = scrollY e.

(** ** Vocabulary for the properties of the flow *)

(** A step that [runStep] skips: it needs no navigation and its selector
    finds nothing. *)
Definition isMissing (pg : Page) (e : Env) (step : OnboardingStep) : bool :=
  negb (Flow.mustNavigate step e) &&
  match querySelector pg (element step) with
  | NoMatch => true
  | _ => false
  end.

(** A step on which [runStep] throws: it needs no navigation and its
    selector is not valid. *)
Definition isInvalid (pg : Page) (e : Env) (step : OnboardingStep) : bool :=
  negb (Flow.mustNavigate step e) &&
  match querySelector pg (element step) with
  | InvalidSelector => true
  | _ => false
  end.

(** Every selector of the steps is one that [querySelector] accepts. *)
Definition validSelectors (pg : Page) (l : list OnboardingStep) : Prop :=
  Forall (fun step => querySelector pg (element step) <> InvalidSelector) l.

(** The steps at the front of [rest] that are all missing. *)
Fixpoint missingPrefix (pg : Page) (e : Env) (rest : list OnboardingStep)
  : list OnboardingStep :=
  match rest with
  | [] => []
  | step :: rest' =>
      if isMissing pg e step then step :: missingPrefix pg e rest' else []
  end.

(** One warning for each step of [l], numbered from [n + 1]. *)
Fixpoint notFoundWarnings (n : nat) (l : list OnboardingStep)
  : list Warning :=
  match l with
  | [] => []
  | step :: l' =>
      ElementNotFound (element step) (n + 1) :: notFoundWarnings (S n) l'
  end.

(** What [stop] would write back: the body's overflow and the window's
    keydown listeners. *)
Definition restored (f : FlowManager) (e : Env) : string * list nat :=
  (match _prevOverflow f with
   | Some o => o
   | None => bodyOverflow e
   end,
   match keyHandler f with
   | Some k => List.remove Nat.eq_dec k (keydownListeners e)
   | None => keydownListeners e
   end).

(** The invariant behind the non-null assertions [this.pointer!]: a running
    flow has a pointer; and the options given to the constructor stay. *)
Definition consistent (po : PointerOptions) (fo : FlowOptions)
    (f : FlowManager) : Prop :=
  (running f = true -> pointer f <> None) /\
  pointerOptions f = po /\ flowOptions f = fo.

(** What can happen on a page that holds a [FlowManager]: calls of its
    public methods and the events of the browser. *)
Inductive Action :=
| CallStart (arg : StepsArg)
| CallStop
| CallSetInitialPosition (x y : Q)
| Keydown (key : string)
| Click (el : Elem)
| TimerFires
| FrameFires
| Elapse (dt : Q)
| PageLoaded.

Definition act (pg : Page) (a : Action) (f : FlowManager) (e : Env)
  : Outcome :=
  match a with
  | CallStart arg => Flow.start pg arg f e
  | CallStop => Returned (Flow.stop f e)
  | CallSetInitialPosition x y =>
      Returned (Flow.setInitialPosition x y f e, e)
  | Keydown key => Loop.keydown pg key f e
  | Click el => Loop.click pg el f e
  | TimerFires => Loop.flowTimer pg f e
  | FrameFires => Returned (Loop.flowFrame f e)
  | Elapse dt => Returned (f, Loop.elapse dt e)
  | PageLoaded => Returned (f, Loop.loaded e)
  end.

(** The page lives on after an uncaught exception. *)
Fixpoint run (pg : Page) (acts : list Action) (f : FlowManager) (e : Env)
  : Outcome :=
  match acts with
  | [] => Returned (f, e)
  | a :: acts' => andThen (act pg a f e) (run pg acts')
  end.

(** The step lists that the calls of [start] in [acts] pass are made of
    valid selectors. *)
Definition validActions (pg : Page) (acts : list Action) : Prop :=
  Forall (fun a => match a with
                   | CallStart (StepsArray l) => validSelectors pg l
                   | _ => True
                   end) acts.

(** * Properties of the pointer *)

Lemma Qltb_true a b : Qltb a b = true <-> a < b.
Proof.
  unfold Qltb. rewrite negb_true_iff. split; intro H.
  - apply Qnot_le_lt. intro L. apply Qle_bool_iff in L. congruence.
  - destruct (Qle_bool b a) eqn:E; [|reflexivity].
    apply Qle_bool_iff in E. exfalso. apply (Qlt_not_le _ _ H E).
Qed.

Lemma Qltb_false a b : Qltb a b = false <-> b <= a.
Proof.
  unfold Qltb. rewrite negb_false_iff. apply Qle_bool_iff.
Qed.

Ltac split_ifs :=
  repeat match goal with
         | |- context [if ?c then _ else _] => destruct c
         end.

(** ** The elapsed fraction *)

Lemma divide_nonzero x y : ~ y == 0 -> divide x y = Fin (x / y).
Proof.
  intro H. unfold divide. destruct (Qeq_bool y 0) eqn:E; [|reflexivity].
  apply Qeq_bool_iff in E. contradiction.
Qed.

Lemma divide_zero x y :
  y == 0 ->
  divide x y = match Qcompare x 0 with
               | Gt => PInf
               | Eq => NaN
               | Lt => NInf
               end.
Proof.
  intro H. unfold divide. apply Qeq_bool_iff in H. now rewrite H.
Qed.

(** With a non-zero duration the fraction is a number, at most 1. *)
Lemma elapsedAt_fraction a now :
  ~ a_duration a == 0 ->
  Ptr.elapsedAt a now
  = Fin (Qmin ((now - a_startTime a) / a_duration a) 1).
Proof.
  intro H. unfold Ptr.elapsedAt. now rewrite divide_nonzero.
Qed.

(** Once the duration has passed, the fraction is 1. *)
Lemma elapsedAt_done a now :
  0 < a_duration a -> a_startTime a + a_duration a <= now ->
  exists q, Ptr.elapsedAt a now = Fin q /\ q == 1.
Proof.
  intros Hd Hn. rewrite elapsedAt_fraction by lra.
  eexists. split; [reflexivity|].
  apply Q.min_r. apply Qle_shift_div_l; [assumption|]. lra.
Qed.

(** A zero duration at the start time gives NaN, before it -Infinity. *)
Lemma elapsedAt_nan a now :
  a_duration a == 0 -> now == a_startTime a -> Ptr.elapsedAt a now = NaN.
Proof.
  intros Hd Hn. unfold Ptr.elapsedAt. rewrite divide_zero by exact Hd.
  assert (E : now - a_startTime a == 0) by lra.
  apply Qeq_alt in E. now rewrite E.
Qed.

(** From a non-negative duration on, the test [elapsed < 1] fails: the
    fraction is 1, or it is NaN (zero duration at the start time). *)
Lemma elapsedAt_not_below_1 a now :
  0 <= a_duration a -> a_startTime a + a_duration a <= now ->
  (Ptr.elapsedAt a now <? Fin 1)%num = false.
Proof.
  intros Hd Hn.
  destruct (Qeq_dec (a_duration a) 0) as [Z | N].
  - unfold Ptr.elapsedAt. rewrite divide_zero by exact Z.
    destruct (Qcompare_spec (now - a_startTime a) 0) as [E | L | G];
      cbn; try reflexivity.
    lra.
  - destruct (elapsedAt_done a now) as (q & E & Hq); [lra | exact Hn|].
    rewrite E. cbn. apply Qltb_false. lra.
Qed.

Lemma below_1_not_1 (n : Num) :
  (n <? Fin 1)%num = true -> (n =? Fin 1)%num = false.
Proof.
  destruct n as [q| | |]; cbn; try reflexivity; try discriminate.
  intro H. apply Qltb_true in H.
  destruct (Qeq_bool q 1) eqn:E; [|reflexivity].
  apply Qeq_bool_iff in E. lra.
Qed.

(** ** The easing curve on finite numbers *)

Lemma ease_low t : t < 1 # 2 -> Ptr.ease (Fin t) = Fin (2 * t * t).
Proof.
  intro H. unfold Ptr.ease. cbn [Nlt]. apply Qltb_true in H. now rewrite H.
Qed.

Lemma ease_high t :
  1 # 2 <= t -> Ptr.ease (Fin t) = Fin (-1 + (4 - 2 * t) * t).
Proof.
  intro H. unfold Ptr.ease. cbn [Nlt]. apply Qltb_false in H.
  now rewrite H.
Qed.

Lemma ease_finite t : exists u, Ptr.ease (Fin t) = Fin u.
Proof.
  destruct (Qlt_le_dec t (1 # 2)) as [L | G]; eexists;
    [apply ease_low, L | apply ease_high, G].
Qed.

Lemma ease_symmetric t :
  exists u v,
    Ptr.ease (Fin t) = Fin u /\ Ptr.ease (Fin (1 - t)) = Fin v /\
    u + v == 1.
Proof.
  destruct (Qlt_le_dec t (1 # 2)) as [L | G].
  - do 2 eexists. split; [apply ease_low, L|].
    split; [apply ease_high; lra | ring].
  - destruct (Qlt_le_dec (1 # 2) t) as [L' | G'].
    + do 2 eexists. split; [apply ease_high, G|].
      split; [apply ease_low; lra | ring].
    + assert (E : t == 1 # 2) by lra.
      do 2 eexists. split; [apply ease_high, G|].
      split; [apply ease_high; lra|]. rewrite E. reflexivity.
Qed.

(** ** Frames *)

(** Every frame keeps [options]; only the last one touches the position. *)
Lemma animate_options a now p e :
  options (fst (Ptr.animate a now p e)) = options p.
Proof.
  unfold Ptr.animate. split_ifs; reflexivity.
Qed.

Lemma hide_hide p : Ptr.hide (Ptr.hide p) = Ptr.hide p.
Proof. reflexivity. Qed.

(** The frame on which [elapsed < 1] fails is the last one. *)
Lemma animate_last_frame a now p e :
  (Ptr.elapsedAt a now <? Fin 1)%num = false ->
  let '(p', e') := Ptr.animate a now p e in
  currentX p' = a_x a /\ currentY p' = a_y a /\ animating p' = false /\
  frames e' = frames e.
Proof.
  intro F. unfold Ptr.animate. rewrite F. split_ifs; cbn; auto.
Qed.

(** A frame paints the pointer element where the easing curve says. *)
Lemma animate_position a now p e el u :
  Ptr.elapsedAt a now = Fin el -> Ptr.ease (Fin el) = Fin u ->
  pe_left (pointerEl (fst (Ptr.animate a now p e)))
  = Px (a_startX a + a_deltaX a * u) /\
  pe_top (pointerEl (fst (Ptr.animate a now p e)))
  = Px (a_startY a + a_deltaY a * u).
Proof.
  intros He Hu. unfold Ptr.animate. rewrite He, Hu.
  split; split_ifs; reflexivity.
Qed.

Lemma animate_in_flight a now p e :
  (Ptr.elapsedAt a now <? Fin 1)%num = true ->
  let s := Ptr.animate a now p e in
  currentX (fst s) = currentX p /\ currentY (fst s) = currentY p /\
  animating (fst s) = animating p /\ options (fst s) = options p /\
  frames (snd s) = frames e ++ [a] /\ timers (snd s) = timers e.
Proof.
  intro F. unfold Ptr.animate.
  rewrite F, (below_1_not_1 _ F). split_ifs; cbn; repeat split.
Qed.

(** What [animateTo] hands to [requestAnimationFrame] when the pointer is
    idle. *)
Lemma animateTo_idle pg x y note first flip p e :
  animating p = false ->
  exists p1 a,
    Ptr.animateTo pg x y note first flip p e
    = (p1, requestAnimationFrame a e) /\
    animating p1 = true /\
    currentX p1 = currentX p /\ currentY p1 = currentY p /\
    pointerEl p1 = pointerEl p /\ options p1 = options p /\
    a_x a = x /\ a_y a = y /\
    a_startX a = currentX p /\ a_startY a = currentY p /\
    a_deltaX a = x - currentX p /\ a_deltaY a = y - currentY p /\
    a_startTime a = clock e /\
    a_duration a = nullish (animationSpeed (options p)) 400 /\
    a_note a = note /\ a_isFirstStep a = first /\ a_flip a = flip.
Proof.
  intro H. unfold Ptr.animateTo. rewrite H.
  destruct (truthy note); destruct first; cbn;
    do 2 eexists; (split; [reflexivity|]); cbn; repeat split.
Qed.

(** The clamped target of the 300 ms callback, in a form other proofs can
    chain on. *)
Lemma settle_calls_animateTo pg target note first vw vh p e :
  exists x y flip p1,
    Ptr.settle pg target note first vw vh p e
    = Ptr.animateTo pg x y note first flip p1 e /\
    animating p1 = animating p /\ options p1 = options p /\
    currentX p1 = currentX p /\ currentY p1 = currentY p /\
    pointerEl p1 = pointerEl p /\
    8 <= x /\ 8 <= y.
Proof.
  unfold Ptr.settle.
  destruct (truthy note); cbv zeta; unfold Ptr.margin;
    do 4 eexists; (split; [reflexivity|]);
    repeat split; apply Q.le_max_l.
Qed.




(** The three values, written exactly: 0.020000000000000004,
    0.9800000000000002 and 1.0000000000000002. *)
Example ease64_at_tenth :
  ease64 tenth = 0x1.47ae147ae147cp-6%float /\
  ease64 (1 - tenth) = 0x1.f5c28f5c28f5ep-1%float /\
  (ease64 tenth + ease64 (1 - tenth))%float = 0x1.0000000000001p+0%float.
Proof. vm_compute. repeat split. Qed.

(** C10.  The [settle] callback of [moveToElement] clamps from above first
    and from below last, so the target [(x, y)] it hands to [animateTo] is at
    least the 8 px margin on both axes for every rectangle, viewport and
    pointer state; in a viewport narrower (lower) than
    [pointerSize + 2 * margin] the target is the margin itself and lies
    beyond [viewport - pointerSize - margin].  When no animation is running
    the target is the one of the animation that starts. *)
Theorem target_at_least_margin :
  forall pg target note first vw vh p e,
    let size := nullish (pointerSize (options p)) 32 in
    exists x y flip p1,
      Ptr.settle pg target note first vw vh p e
      = Ptr.animateTo pg x y note first flip p1 e /\
      animating p1 = animating p /\
      8 <= x /\ 8 <= y /\
      (vw < size + 2 * 8 -> x == 8 /\ vw - size - 8 < x) /\
      (vh < size + 2 * 8 -> y == 8 /\ vh - size - 8 < y) /\
      (animating p = false ->
       exists a,
         frames (snd (Ptr.settle pg target note first vw vh p e))
         = frames e ++ [a] /\
         a_x a = x /\ a_y a = y).
Proof.
  intros pg target note first vw vh p e size.
  unfold Ptr.settle.
  destruct (truthy note) eqn:Hn; cbv zeta; fold size; unfold Ptr.margin.
  all: match goal with
       | |- context [Ptr.animateTo _ (Qmax 8 ?u) (Qmax 8 ?v) _ _ ?fl ?q _] =>
           set (x := u); set (y := v);
           exists (Qmax 8 x), (Qmax 8 y), fl, q
       end.
  all: split; [reflexivity|]; split; [reflexivity|].
  all: split; [apply Q.le_max_l|]; split; [apply Q.le_max_l|].
  all: split; [|split].
  all: try (intro Hsmall; split;
            [ apply Q.max_l; subst x y;
              eapply Qle_trans; [apply Q.le_min_r|]; lra
            | eapply Qlt_le_trans; [|apply Q.le_max_l]; lra ]).
  all: intro Hidle; unfold Ptr.animateTo; cbn [animating with_noteEl];
    rewrite Hidle; rewrite ?Hn; cbn -[Qmax Qmin Qplus Qminus Qmult];
    eexists; repeat split.
Qed.

Lemma target_at_least_margin_witness :
  animating Sample.pointer0 = false /\
  40 < nullish (pointerSize (options Sample.pointer0)) 32 + 2 * 8 /\
  exists a,
    frames (snd (Ptr.settle Sample.page 1%nat None false 40 800
                            Sample.pointer0 Sample.env0))
    = frames Sample.env0 ++ [a] /\
    8 <= a_x a /\ 8 <= a_y a /\ a_x a == 8 /\ 40 - 32 - 8 < a_x a.
Proof.
  assert (I : animating Sample.pointer0 = false) by reflexivity.
  assert (N : 40 < nullish (pointerSize (options Sample.pointer0)) 32 + 2 * 8)
    by reflexivity.
  split; [exact I|]. split; [exact N|].
  destruct (target_at_least_margin Sample.page 1%nat None false 40 800
              Sample.pointer0 Sample.env0)
    as (x & y & flip & p1 & _ & _ & Hx & Hy & Hw & _ & Ha).
  destruct (Ha I) as (a & Hf & Eqx & Eqy).
  destruct (Hw N) as [Heq Hlt].
  exists a. rewrite Eqx, Eqy. repeat split; assumption.
Defined.

(** C7.  [setInitialPosition(x, y)] stores [(x, y)] as the current position
    and writes it to the pointer element, for every [x] and [y]; it starts
    no animation (the [animating] flag and the note are as before, and as a
    function of the pointer alone it schedules nothing), and [hide] and
    [show], which are not animations, keep the position.  The method of
    [FlowManager] creates the pointer if there is none and forwards. *)
Theorem setInitialPosition_exact :
  forall x y p,
    let p' := Ptr.setInitialPosition x y p in
    (currentX p' = x /\ currentY p' = y /\
     pe_left (pointerEl p') = Px x /\ pe_top (pointerEl p') = Px y /\
     animating p' = animating p /\ noteEl p' = noteEl p /\
     options p' = options p) /\
    (currentX (Ptr.show (Ptr.hide p')) = x /\
     currentY (Ptr.show (Ptr.hide p')) = y) /\
    (forall f e,
       exists q, pointer (Flow.setInitialPosition x y f e) = Some q /\
                 currentX q = x /\ currentY q = y /\
                 steps (Flow.setInitialPosition x y f e) = steps f /\
                 running (Flow.setInitialPosition x y f e) = running f).
Proof.
  intros x y p p'. split; [|split].
  - repeat split.
  - split; reflexivity.
  - intros f e. unfold Flow.setInitialPosition.
    destruct (pointer f); eexists; repeat split.
Qed.

(** C6, as the code has it.  [hide()] followed by [show()] leaves the
    pointer element displayed and keeps the current position, the pointer
    element's coordinates and the [animating] flag; the note is left with
    [display: none], whatever it was before. *)
Theorem hide_show_pointer_only :
  forall p,
    let p' := Ptr.show (Ptr.hide p) in
    pe_display (pointerEl p') = DisplayBlock /\
    ne_display (noteEl p') = DisplayNone /\
    currentX p' = currentX p /\ currentY p' = currentY p /\
    pe_left (pointerEl p') = pe_left (pointerEl p) /\
    pe_top (pointerEl p') = pe_top (pointerEl p) /\
    animating p' = animating p.
Proof.
  intro p. repeat split.
Qed.

(** The pointer of [Sample.underway] shows the note 'A'; after
    [hide(); show()] the note is still hidden. *)
Lemma hide_show_note_stays_hidden :
  ~ hide_show_restores (fst Sample.underway).
Proof.
  intros (_ & H & _). revert H. vm_compute. discriminate.
Qed.

Example underway_note_is_shown :
  ne_display (noteEl (fst Sample.underway)) = DisplayBlock /\
  ne_display (noteEl (Ptr.show (Ptr.hide (fst Sample.underway))))
  = DisplayNone.
Proof. split; reflexivity. Qed.

(** C1, as the code has it.  A call of [moveToElement] never touches the
    pointer object and requests no frame, whatever the pointer is doing: it
    only queues its 300 ms callback (and may scroll), so it cannot interrupt
    an animation.  The guard is read when that callback runs, not when the
    call is made.  If an animation is in progress then, [animateTo] returns
    at once: the pointer element, the current position, the [animating]
    flag, the frame queue, the timers and the scroll position are as before
    the callback, and the move is lost for good.  If no animation is in
    progress then (the first one has completed in the meantime), the move
    starts: the flag is set and one frame is requested, from the current
    position.  ([animateTo] alone is the identity on a busy pointer; the
    note is outside this statement.) *)
Theorem second_move_is_dropped :
  forall pg target note first,
    (forall p e,
       let '(p1, e1) := Ptr.moveToElement pg target note first p e in
       p1 = p /\ frames e1 = frames e /\
       timers e1 = timers e ++
         [(clock e + 300,
           Settle target note first (innerWidth e) (innerHeight e))]) /\
    (forall vw vh p e,
       animating p = true ->
       let '(p2, e2) := Ptr.settle pg target note first vw vh p e in
       pointerEl p2 = pointerEl p /\
       currentX p2 = currentX p /\ currentY p2 = currentY p /\
       animating p2 = true /\ options p2 = options p /\
       e2 = e) /\
    (forall vw vh p e,
       animating p = false ->
       let '(p2, e2) := Ptr.settle pg target note first vw vh p e in
       animating p2 = true /\
       pointerEl p2 = pointerEl p /\
       currentX p2 = currentX p /\ currentY p2 = currentY p /\
       timers e2 = timers e /\ scrollY e2 = scrollY e /\
       exists a,
         frames e2 = frames e ++ [a] /\
         a_startX a = currentX p /\ a_startY a = currentY p /\
         a_startTime a = clock e /\ a_note a = note) /\
    (forall x y flip p e,
       animating p = true ->
       Ptr.animateTo pg x y note first flip p e = (p, e)).
Proof.
  intros pg target note first. split; [|split; [|split]].
  - intros p e. unfold Ptr.moveToElement. split_ifs; repeat split.
  - intros vw vh p e H. unfold Ptr.settle, Ptr.animateTo.
    destruct (truthy note); cbn; rewrite H; cbn; repeat split; assumption.
  - intros vw vh p e H.
    destruct (settle_calls_animateTo pg target note first vw vh p e)
      as (x & y & flip & p1 & E & Ha & _ & Hx & Hy & Hel & _).
    rewrite E.
    assert (H1 : animating p1 = false) by congruence.
    destruct (animateTo_idle pg x y note first flip p1 e H1)
      as (p2 & a & E2 & A2 & X2 & Y2 & El2 & _ & _ & _ & Sx & Sy & _ & _
          & St & _ & Sn & _).
    rewrite E2. split; [exact A2|]. split; [congruence|].
    split; [congruence|]. split; [congruence|].
    split; [reflexivity|]. split; [reflexivity|].
    exists a. split; [reflexivity|].
    split; [congruence|]. split; [congruence|]. split; assumption.
  - intros x y flip p e H. unfold Ptr.animateTo. now rewrite H.
Qed.

Lemma second_move_is_dropped_witness :
  animating (fst Sample.underway) = true /\
  animating Sample.pointer0 = false /\
  (let '(p, e) := Sample.underway in
   currentX (fst (Ptr.settle Sample.page 2%nat (Some "B") false 1000 800 p e))
   = currentX p /\
   snd (Ptr.settle Sample.page 2%nat (Some "B") false 1000 800 p e) = e) /\
  animating (fst (Ptr.settle Sample.page 2%nat (Some "B") false 1000 800
                    Sample.pointer0 Sample.env0)) = true.
Proof.
  split; [reflexivity|]. split; [reflexivity|].
  destruct (second_move_is_dropped Sample.page 2%nat (Some "B") false)
    as (_ & S & T & _).
  split.
  - destruct Sample.underway as [p e] eqn:U.
    assert (A : animating p = true).
    { change p with (fst (p, e)). rewrite <- U. reflexivity. }
    specialize (S 1000 800 p e A).
    destruct (Ptr.settle _ _ _ _ _ _ _ _) as [p2 e2].
    cbn [fst snd]. destruct S as (_ & Hx & _ & _ & _ & He).
    split; assumption.
  - specialize (T 1000 800 Sample.pointer0 Sample.env0 eq_refl).
    destruct (Ptr.settle _ _ _ _ _ _ _ _) as [p2 e2].
    cbn [fst]. apply T.
Defined.

(** While the pointer of [Sample.underway] glides to [#a] showing 'A',
    [moveToElement(#b, 'B')] scrolls the window towards [#b] and its callback
    replaces the note's text by 'B' and hides the note. *)
Lemma second_move_rewrites_note_and_scrolls :
  ~ second_move_unobservable Sample.page 2%nat (Some "B") false
      (fst Sample.underway) (snd Sample.underway).
Proof.
  intro H.
  assert (A : animating (fst Sample.underway) = true)
    by (vm_compute; reflexivity).
  destruct (H A) as (_ & Hn & _).
  apply (f_equal ne_text) in Hn. revert Hn.
  vm_compute. discriminate.
Qed.

Example second_move_effects :
  let p := fst Sample.underway in
  let e := snd Sample.underway in
  let s1 := Ptr.moveToElement Sample.page 2%nat (Some "B") false p e in
  let p2 := fst (Loop.fireTimer Sample.page (fst s1)
                   (Loop.elapse 300 (snd s1))) in
  let e2 := snd (Loop.fireTimer Sample.page (fst s1)
                   (Loop.elapse 300 (snd s1))) in
  animating p = true /\
  ne_text (noteEl p) = "A" /\ ne_text (noteEl p2) = "B" /\
  ne_visibility (noteEl p) = VisibilityVisible /\
  ne_visibility (noteEl p2) = VisibilityHidden /\
  scrollY e == 0 /\ scrollY e2 == 840 /\
  frames e2 = frames e.
Proof. vm_compute. repeat split; intro; discriminate. Qed.

(** The glide to [#a] runs from 300 to 700.  [moveToElement(#c, 'C')] is
    called at 500, in the middle of it; the last frame of the glide comes at
    700; the callback of the second call runs at 800, finds the pointer idle
    and starts the move to [#c]. *)
Example late_callback_starts_the_second_move :
  let s0 := Ptr.moveToElement Sample.page 1%nat (Some "A") false
              Sample.pointer0 Sample.env0 in
  let s1 := Loop.fireTimer Sample.page (fst s0) (Loop.elapse 300 (snd s0)) in
  let s2 := Ptr.moveToElement Sample.page 3%nat (Some "C") false
              (fst s1) (Loop.elapse 200 (snd s1)) in
  let s3 := Loop.frame (fst s2) (Loop.elapse 200 (snd s2)) in
  let s4 := Loop.fireTimer Sample.page (fst s3) (Loop.elapse 100 (snd s3)) in
  animating (fst s2) = true /\ animating (fst s3) = false /\
  animating (fst s4) = true /\
  map a_note (frames (snd s4)) = [Some "C"] /\ clock (snd s4) == 800.
Proof. vm_compute. repeat split. Qed.

(** * Properties of the flow *)

Lemma skipn_head {A} (l : list A) n x r :
  skipn n l = x :: r -> nth_error l n = Some x /\ skipn (S n) l = r.
Proof.
  revert l. induction n as [|n IH]; intros [|y l] H; cbn in *;
    try discriminate.
  - inversion H; subst. split; reflexivity.
  - destruct (IH _ H) as [Hn Hs]. split; [exact Hn | exact Hs].
Qed.

Lemma nth_error_skipn_cons {A} (l : list A) n x :
  nth_error l n = Some x -> skipn n l = x :: skipn (S n) l.
Proof.
  revert l. induction n as [|n IH]; intros [|y l] H; cbn in *;
    try discriminate.
  - inversion H; subst. reflexivity.
  - rewrite (IH _ H). reflexivity.
Qed.

Lemma skipn_past_end {A} (l : list A) n :
  (List.length l <= n)%nat -> skipn n l = [].
Proof. apply skipn_all2. Qed.

(** [runStep] satisfies the recursive equation that the source writes. *)
Lemma runStep_unfold pg f e :
  Flow.runStep pg f e =
  if negb (running f) || (List.length (steps f) <=? currentStep f)%nat
  then Returned (Flow.stop f e)
  else
    match nth_error (steps f) (currentStep f) with
    | None => Returned (Flow.stop f e)
    | Some step =>
        if Flow.mustNavigate step e then
          Returned (f, env_set_load (S (loadListeners e))
                         (env_set_href (url step) e))
        else
          match querySelector pg (element step) with
          | InvalidSelector => Threw SyntaxError (f, e)
          | Found el =>
              match pointer f with
              | None => Threw TypeError (f, e)
              | Some p =>
                  let '(p, e) :=
                    Ptr.moveToElement pg el (Some (note step))
                      (Nat.eqb (currentStep f) 0) (Ptr.show p) e in
                  Returned
                    (fm_set_pointer (Some p) f,
                     env_set_next (S (nextListener e))
                       (env_set_clicks
                          (clickListeners e ++ [(el, nextListener e)]) e))
              end
          | NoMatch =>
              Flow.advanceStep pg f
                (warn (ElementNotFound (element step) (currentStep f + 1)) e)
          end
    end.
Proof.
  unfold Flow.runStep.
  destruct (Nat.leb_spec (List.length (steps f)) (currentStep f)) as [Hle | Hlt].
  - rewrite (skipn_past_end _ _ Hle), orb_true_r. reflexivity.
  - destruct (nth_error (steps f) (currentStep f)) as [step|] eqn:Hn.
    2:{ apply nth_error_None in Hn. lia. }
    rewrite (nth_error_skipn_cons _ _ _ Hn). cbn [Flow.runStepFrom].
    rewrite orb_false_r.
    destruct (negb (running f)); [reflexivity|].
    destruct (Flow.mustNavigate step e); [reflexivity|].
    destruct (querySelector pg (element step)); reflexivity.
Qed.

(** [stop] again changes nothing. *)
Lemma stop_stop f e :
  let '(f1, e1) := Flow.stop f e in Flow.stop f1 e1 = (f1, e1).
Proof.
  destruct f as [st [p|] cs r po fo [k|] [o|]]; reflexivity.
Qed.

Lemma stop_running f e : running (fst (Flow.stop f e)) = false.
Proof.
  destruct f as [st [p|] cs r po fo [k|] [o|]]; reflexivity.
Qed.

(** What [stop] leaves alone. *)
Lemma stop_frame f e :
  let s := Flow.stop f e in
  running (fst s) = false /\
  currentStep (fst s) = currentStep f /\ steps (fst s) = steps f /\
  pointerOptions (fst s) = pointerOptions f /\
  flowOptions (fst s) = flowOptions f /\
  console (snd s) = console e /\ timers (snd s) = timers e /\
  frames (snd s) = frames e /\ clickListeners (snd s) = clickListeners e /\
  scrollY (snd s) = scrollY e /\ pathname (snd s) = pathname e /\
  (pointer f = None <-> pointer (fst s) = None).
Proof.
  destruct f as [st [p|] cs r po fo [k|] [o|]]; cbn;
    repeat split; intro; discriminate.
Qed.

Lemma stop_keeps_position f e p :
  pointer f = Some p ->
  exists p', pointer (fst (Flow.stop f e)) = Some p' /\
             currentX p' = currentX p /\ currentY p' = currentY p /\
             options p' = options p.
Proof.
  intro Hp. destruct f as [st q cs r po fo [k|] [o|]]; cbn in Hp; subst q;
    eexists; (split; [reflexivity|]); cbn; repeat split.
Qed.

(** What [moveToElement] leaves alone. *)
Lemma moveToElement_frame pg target note first p e :
  let s := Ptr.moveToElement pg target note first p e in
  fst s = p /\
  console (snd s) = console e /\ bodyOverflow (snd s) = bodyOverflow e /\
  keydownListeners (snd s) = keydownListeners e /\
  clickListeners (snd s) = clickListeners e /\
  nextListener (snd s) = nextListener e /\
  pathname (snd s) = pathname e /\ frames (snd s) = frames e.
Proof.
  unfold Ptr.moveToElement. cbn [fst snd]. split_ifs; repeat split.
Qed.

Lemma runStepFrom_not_running pg rest f e :
  running f = false ->
  Flow.runStepFrom pg rest f e = Returned (Flow.stop f e).
Proof.
  intro H. destruct rest; cbn [Flow.runStepFrom]; [reflexivity|].
  now rewrite H.
Qed.

(** The key handler returns at once when the flow is not running. *)
Lemma onKeydown_not_running pg key f e :
  running f = false -> Flow.onKeydown pg key f e = Returned (f, e).
Proof.
  intro H. unfold Flow.onKeydown. now rewrite H.
Qed.

Lemma dispatchKeydown_not_running pg key ks f e :
  running f = false ->
  Loop.dispatchKeydown pg key ks f e = Returned (f, e).
Proof.
  intro H. induction ks as [|k ks IH]; cbn [Loop.dispatchKeydown];
    [reflexivity|].
  rewrite (onKeydown_not_running pg key f e H). unfold andThen, Returned.
  rewrite IH. now destruct (existsb _ _).
Qed.

(** Whether [runStep] returns or throws, a pointer that the manager has
    stays, at the position it had. *)
Lemma runStepFrom_keeps_position pg rest :
  forall f e p,
    pointer f = Some p ->
    exists p',
      pointer (managerOf (Flow.runStepFrom pg rest f e)) = Some p' /\
      currentX p' = currentX p /\ currentY p' = currentY p /\
      options p' = options p.
Proof.
  induction rest as [|step rest IH]; intros f e p Hp.
  - cbn [Flow.runStepFrom]. apply stop_keeps_position, Hp.
  - cbn [Flow.runStepFrom].
    destruct (negb (running f)); [apply stop_keeps_position, Hp|].
    destruct (Flow.mustNavigate step e).
    { exists p. cbn. repeat split. exact Hp. }
    destruct (querySelector pg (element step)) as [el| |].
    + rewrite Hp. unfold Ptr.moveToElement.
      eexists. cbn. split; [reflexivity|].
      unfold Ptr.show. split_ifs; repeat split.
    + apply IH. exact Hp.
    + exists p. cbn. repeat split. exact Hp.
Qed.

Lemma start_keeps_position pg arg f e p :
  pointer f = Some p ->
  exists p',
    pointer (managerOf (Flow.start pg arg f e)) = Some p' /\
    currentX p' = currentX p /\ currentY p' = currentY p /\
    options p' = options p.
Proof.
  intro Hp.
  destruct arg as [[|s l]|]; cbn [Flow.start];
    try (exists p; cbn; repeat split; assumption).
  unfold Flow.runStep. cbn [pointer fm_set_running fm_set_currentStep
                             fm_set_steps].
  rewrite Hp.
  destruct (nullish _ false); apply runStepFrom_keeps_position; exact Hp.
Qed.

(** Whatever [pointerOptions] say, an event seeds the pointer 16 px left of
    and above the event's client coordinates, and [start] keeps it there. *)
Lemma startOnboarding_seed pg arg po ev fo fm e :
  exists p',
    pointer (managerOf (startOnboarding pg arg po (Some ev) fo fm e))
    = Some p' /\
    currentX p' = clientX ev - 16 /\ currentY p' = clientY ev - 16.
Proof.
  unfold startOnboarding.
  match goal with
  | |- context [Flow.start pg arg ?g e] =>
      destruct (start_keeps_position pg arg g e
                  (Ptr.setInitialPosition (clientX ev - 16) (clientY ev - 16)
                     (match pointer (match fm with
                                     | Some f => f
                                     | None => Flow.new po fo
                                     end) with
                      | Some p => p
                      | None => Ptr.new
                                  (pointerOptions (match fm with
                                                   | Some f => f
                                                   | None => Flow.new po fo
                                                   end)) e
                      end)) eq_refl)
        as (p' & Hptr & Hx & Hy & _)
  end.
  exists p'. repeat split; assumption.
Qed.

(** C3.  When [runStep] reaches the selector of the current step and
    [querySelector] finds nothing, it logs the warning and is from then on
    the call [advanceStep()]: nothing but the console has changed when the
    next step begins, so no timer, frame or click listener was registered
    for the missing step. *)
Theorem missing_element_is_skipped :
  forall pg f e step,
    running f = true ->
    nth_error (steps f) (currentStep f) = Some step ->
    Flow.mustNavigate step e = false ->
    querySelector pg (element step) = NoMatch ->
    let e1 := warn (ElementNotFound (element step) (currentStep f + 1)) e in
    Flow.runStep pg f e = Flow.advanceStep pg f e1 /\
    console e1 = console e ++
                 [ElementNotFound (element step) (currentStep f + 1)] /\
    timers e1 = timers e /\ frames e1 = frames e /\
    clickListeners e1 = clickListeners e /\ scrollY e1 = scrollY e.
Proof.
  intros pg f e step Hr Hn Hnav Hq e1.
  split; [|repeat split].
  rewrite runStep_unfold, Hr, Hn, Hnav, Hq.
  assert (Hlt : (currentStep f < List.length (steps f))%nat).
  { apply nth_error_Some. congruence. }
  apply Nat.leb_gt in Hlt. rewrite Hlt. reflexivity.
Qed.

Lemma missing_element_is_skipped_witness :
  let f := fst FlowSample.atMissing in
  let e := snd FlowSample.atMissing in
  exists f' e',
    Flow.runStep Sample.page f e = Returned (f', e') /\
    currentStep f' = 1%nat /\
    console e' = [ElementNotFound "#missing" 1] /\
    map snd (timers e') = [Settle 1%nat (Some "A") false 1000 800] /\
    clickListeners e' = [(1%nat, 1%nat)].
Proof.
  intros f e.
  assert (Hr : running f = true) by reflexivity.
  assert (Hn : nth_error (steps f) (currentStep f)
               = Some FlowSample.stepMissing) by reflexivity.
  assert (Hnav : Flow.mustNavigate FlowSample.stepMissing e = false)
    by reflexivity.
  assert (Hq : querySelector Sample.page (element FlowSample.stepMissing)
               = NoMatch) by reflexivity.
  destruct (missing_element_is_skipped Sample.page f e _ Hr Hn Hnav Hq)
    as (H & _).
  rewrite H.
  do 2 eexists. split; [vm_compute; reflexivity|]. repeat split.
Defined.

(** C4.  [start] with a value that is not an array, or with an empty array,
    returns after [console.warn]: the flow manager is the same object state
    (steps, index, running flag, pointer, saved overflow, key handler), and
    of the browser only the console changed. *)
Theorem start_rejects_empty :
  forall pg f e,
    let e1 := warn NoStepsProvided e in
    Flow.start pg NotAnArray f e = Returned (f, e1) /\
    Flow.start pg (StepsArray []) f e = Returned (f, e1) /\
    console e1 = console e ++ [NoStepsProvided] /\
    bodyOverflow e1 = bodyOverflow e /\
    keydownListeners e1 = keydownListeners e /\
    clickListeners e1 = clickListeners e /\
    timers e1 = timers e /\ frames e1 = frames e.
Proof.
  intros pg f e. repeat split.
Qed.

(** C5.  [stop] is idempotent; one call clears [running], hides the pointer
    (and its note) if there is one, writes the saved overflow back to the
    body and forgets it, and removes the key handler from the window and
    forgets it.  [advanceStep] from the last step (or beyond) is [stop] on
    the incremented index. *)
Theorem stop_idempotent_and_automatic :
  (forall f e,
     let '(f1, e1) := Flow.stop f e in
     Flow.stop f1 e1 = (f1, e1) /\
     running f1 = false /\
     (forall p, pointer f = Some p -> pointer f1 = Some (Ptr.hide p)) /\
     (forall p1, pointer f1 = Some p1 ->
                 pe_display (pointerEl p1) = DisplayNone /\
                 ne_display (noteEl p1) = DisplayNone) /\
     (forall o, _prevOverflow f = Some o -> bodyOverflow e1 = o) /\
     _prevOverflow f1 = None /\
     (forall k, keyHandler f = Some k -> ~ In k (keydownListeners e1)) /\
     keyHandler f1 = None /\
     steps f1 = steps f /\ currentStep f1 = currentStep f) /\
  (forall pg f e,
     (List.length (steps f) <= S (currentStep f))%nat ->
     Flow.advanceStep pg f e
     = Returned (Flow.stop (fm_set_currentStep (S (currentStep f)) f) e)).
Proof.
  split.
  - intros f e. pose proof (stop_stop f e) as I.
    destruct f as [st [p|] cs r po fo [k|] [o|]]; cbn in *;
      (split; [exact I|]); (split; [reflexivity|]).
    all: split; [intros q [= <-]; reflexivity|].
    all: split; [intros q [= <-]; split; reflexivity|].
    all: split; [intros o' [= <-]; reflexivity|].
    all: split; [reflexivity|].
    all: split; [intros k' [= <-]; apply remove_In|].
    all: repeat split.
  - intros pg f e H. unfold Flow.advanceStep. rewrite runStep_unfold.
    cbn [steps currentStep fm_set_currentStep].
    apply Nat.leb_le in H. rewrite H, orb_true_r. reflexivity.
Qed.

Lemma stop_idempotent_and_automatic_witness :
  let f := fst FlowSample.onLastStep in
  let e := snd FlowSample.onLastStep in
  running f = true /\ keydownListeners e = [0%nat] /\
  (List.length (steps f) <= S (currentStep f))%nat /\
  Flow.advanceStep Sample.page f e
  = Returned (Flow.stop (fm_set_currentStep (S (currentStep f)) f) e) /\
  bodyOverflow (snd (Flow.stop f e)) = EmptyString /\
  keydownListeners (snd (Flow.stop f e)) = [].
Proof.
  intros f e.
  assert (L : (List.length (steps f) <= S (currentStep f))%nat)
    by (vm_compute; lia).
  destruct stop_idempotent_and_automatic as [_ A].
  split; [vm_compute; reflexivity|].
  split; [vm_compute; reflexivity|].
  split; [exact L|].
  split; [exact (A Sample.page f e L)|].
  split; vm_compute; reflexivity.
Defined.

(** C9.  The key handler tests [running] before anything else: while the
    flag is false, and in particular in the state that [stop] leaves, a
    keydown event of any key (Enter, ArrowRight, ArrowLeft and Escape among
    them) leaves the flow manager and the browser as they are, however many
    key handlers [ks] are still registered on the window. *)
Theorem keys_ignored_after_stop :
  (forall pg key ks f e,
     running f = false ->
     Flow.onKeydown pg key f e = Returned (f, e) /\
     Loop.dispatchKeydown pg key ks f e = Returned (f, e)) /\
  (forall pg key ks f e,
     let '(f1, e1) := Flow.stop f e in
     Flow.onKeydown pg key f1 e1 = Returned (f1, e1) /\
     Loop.dispatchKeydown pg key ks f1 e1 = Returned (f1, e1) /\
     Loop.keydown pg key f1 e1 = Returned (f1, e1)).
Proof.
  split.
  - intros pg key ks f e H. split.
    + apply onKeydown_not_running, H.
    + apply dispatchKeydown_not_running, H.
  - intros pg key ks f e. pose proof (stop_running f e) as H.
    destruct (Flow.stop f e) as [f1 e1]. cbn [fst] in H.
    split; [|split].
    + apply onKeydown_not_running, H.
    + apply dispatchKeydown_not_running, H.
    + apply dispatchKeydown_not_running, H.
Qed.

Lemma keys_ignored_after_stop_witness :
  let f := fst FlowSample.stoppedWithListener in
  let e := snd FlowSample.stoppedWithListener in
  running f = false /\ keydownListeners e = [0%nat] /\
  Loop.keydown Sample.page "Enter" f e = Returned (f, e) /\
  Loop.keydown Sample.page "ArrowRight" f e = Returned (f, e) /\
  Loop.keydown Sample.page "ArrowLeft" f e = Returned (f, e) /\
  Loop.keydown Sample.page "Escape" f e = Returned (f, e).
Proof.
  intros f e.
  assert (R : running f = false) by (vm_compute; reflexivity).
  assert (K : keydownListeners e = [0%nat]) by (vm_compute; reflexivity).
  destruct keys_ignored_after_stop as [G _].
  unfold Loop.keydown.
  repeat split; try assumption;
    apply (G Sample.page _ (keydownListeners e) f e R).
Defined.

(** C2, at the demo's options ([pointerSize: 36]) and a click at
    (100, 200): [startOnboarding] returns with the pointer at (84, 184),
    16 px from the click on each axis, not at (82, 182), which is half the
    configured icon size away. *)
Theorem startOnboarding_seed_ignores_pointerSize :
  exists f e p,
    startOnboarding Sample.page (StepsArray [FlowSample.stepA])
      FlowSample.demoOptions (Some (mkMouseEvent 100 200))
      (mkFlowOptions None) None Sample.env0 = Returned (f, e) /\
    pointer f = Some p /\
    pointerSize (options p) = Some 36 /\
    currentX p == 84 /\ currentY p == 184 /\
    ~ currentX p == 100 - 36 / 2 /\ ~ currentY p == 200 - 36 / 2.
Proof.
  do 3 eexists. split; [vm_compute; reflexivity|].
  cbn [pointer]. split; [reflexivity|].
  cbn. repeat split; intro H; discriminate H.
Qed.

(** With the default icon size the two coincide: 16 is half of 32. *)
Lemma startOnboarding_seed_default_size pg arg ev fo e :
  exists p',
    pointer (managerOf (startOnboarding pg arg noOptions (Some ev) fo None e))
    = Some p' /\
    currentX p' == clientX ev - nullish (pointerSize (options p')) 32 / 2 /\
    currentY p' == clientY ev - nullish (pointerSize (options p')) 32 / 2.
Proof.
  unfold startOnboarding.
  destruct (start_keeps_position pg arg
              (Flow.setInitialPosition (clientX ev - 16) (clientY ev - 16)
                 (Flow.new noOptions fo) e) e
              (Ptr.setInitialPosition (clientX ev - 16) (clientY ev - 16)
                 (Ptr.new noOptions e)) eq_refl)
    as (p' & Hptr & Hx & Hy & Ho).
  exists p'. split; [exact Hptr|].
  rewrite Hx, Hy, Ho. cbn. split; field.
Qed.

(** * Runs of the sequencer *)

(** [start([#missing, #a])] on a fresh manager passes through
    [FlowSample.atMissing] and ends waiting on [#a]. *)
Example missing_then_a_run :
  Flow.start Sample.page
    (StepsArray [FlowSample.stepMissing; FlowSample.stepA])
    FlowSample.flow0 Sample.env0
  = Flow.runStep Sample.page (fst FlowSample.atMissing)
                 (snd FlowSample.atMissing).
Proof. vm_compute. reflexivity. Qed.

(** Steps [#a; #c] on the sample page: a click on [#a] moves on to [#c], a
    click on [#c] ends the flow with the pointer hidden, the body's overflow
    restored and no listener left. *)
Example two_step_run :
  exists f1 e1 f2 e2 f3 e3 p3,
    Flow.start Sample.page
      (StepsArray [FlowSample.stepA; FlowSample.stepC])
      FlowSample.flow0 Sample.env0 = Returned (f1, e1) /\
    Loop.click Sample.page 1%nat f1 e1 = Returned (f2, e2) /\
    Loop.click Sample.page 3%nat f2 e2 = Returned (f3, e3) /\
    (currentStep f1, running f1, bodyOverflow e1) = (0%nat, true, "hidden") /\
    (currentStep f2, running f2, clickListeners e2)
    = (1%nat, true, [(3%nat, 2%nat)]) /\
    map snd (timers e2)
    = [Settle 1%nat (Some "A") true 1000 800;
       Settle 3%nat (Some "C") false 1000 800] /\
    (currentStep f3, running f3, bodyOverflow e3) = (2%nat, false, EmptyString) /\
    keydownListeners e3 = [] /\ clickListeners e3 = [] /\
    pointer f3 = Some p3 /\ pe_display (pointerEl p3) = DisplayNone.
Proof.
  do 7 eexists.
  split; [vm_compute; reflexivity|].
  split; [vm_compute; reflexivity|].
  split; [vm_compute; reflexivity|].
  cbn. repeat split.
Qed.

(** A step with the empty selector: [document.querySelector('')] throws a
    [SyntaxError] out of [start], which leaves the flow running on that
    step, the page's scroll locked and the key handler installed. *)
Example invalid_selector_throws :
  let o := Flow.start Sample.page
             (StepsArray [mkStep EmptyString "X" None; FlowSample.stepA])
             FlowSample.flow0 Sample.env0 in
  thrown o = [SyntaxError] /\
  running (managerOf o) = true /\ currentStep (managerOf o) = 0%nat /\
  bodyOverflow (envOf o) = "hidden" /\ keydownListeners (envOf o) = [0%nat] /\
  timers (envOf o) = [] /\ console (envOf o) = [].
Proof. vm_compute. repeat split. Qed.
(** * Further properties of the pointer *)

(** [||] with a non-empty default never yields the empty string, so it is
    idempotent. *)
Lemma or_else_idem s d :
  d <> EmptyString -> or_else (Some (or_else s d)) d = or_else s d.
Proof.
  intro Hd. destruct s as [[|c s]|]; cbn; try reflexivity;
    destruct d; try reflexivity; contradiction.
Qed.

(** The constructor resolves every option, keeps a given number even when
    it is 0 ([??]), replaces an empty string by the default ([||]), and
    resolving resolved options changes nothing. *)
Theorem constructor_resolves_options :
  forall o e,
    let r := options (Ptr.new o e) in
    (exists c ff fs sp sz st, r = mkOptions (Some c) (Some ff) (Some fs)
                                             (Some sp) (Some sz) (Some st)) /\
    (forall v, animationSpeed o = Some v -> animationSpeed r = Some v) /\
    (forall v, pointerSize o = Some v -> pointerSize r = Some v) /\
    (color o = Some EmptyString -> color r = Some "#8BD3E6") /\
    (forall e', options (Ptr.new r e') = r).
Proof.
  intros o e r. subst r. cbn [Ptr.new options].
  split; [do 6 eexists; reflexivity|].
  split; [intros v ->; reflexivity|].
  split; [intros v ->; reflexivity|].
  split; [intros ->; reflexivity|].
  intro e'. cbn [color fontFamily fontSize animationSpeed pointerSize
                 pointerStyle nullish].
  rewrite !or_else_idem by discriminate. reflexivity.
Qed.

Lemma constructor_resolves_options_witness :
  let o := mkOptions (Some EmptyString) None None (Some 0) (Some 0) None in
  animationSpeed (options (Ptr.new o Sample.env0)) = Some 0 /\
  pointerSize (options (Ptr.new o Sample.env0)) = Some 0 /\
  color (options (Ptr.new o Sample.env0)) = Some "#8BD3E6".
Proof.
  intro o.
  destruct (constructor_resolves_options o Sample.env0)
    as (_ & Hs & Hz & Hc & _).
  split; [apply Hs; reflexivity|].
  split; [apply Hz; reflexivity|].
  apply Hc; reflexivity.
Defined.

(** A frame on which [elapsed < 1] holds leaves the current position, the
    busy flag and the timers alone and requests exactly one further frame,
    with the same closure. *)
Theorem frame_in_flight :
  forall a now p e,
    (Ptr.elapsedAt a now <? Fin 1)%num = true ->
    let s := Ptr.animate a now p e in
    currentX (fst s) = currentX p /\ currentY (fst s) = currentY p /\
    animating (fst s) = animating p /\
    frames (snd s) = frames e ++ [a] /\ timers (snd s) = timers e.
Proof.
  intros a now p e H.
  destruct (animate_in_flight a now p e H) as (A & B & C & _ & D & E).
  cbv zeta. repeat split; assumption.
Qed.

Lemma frame_in_flight_witness :
  let a := mkAnim 288 148 None false false 500 400 (-212) (-252)
                  300 400 32 0 0 in
  (Ptr.elapsedAt a 500 <? Fin 1)%num = true /\
  frames (snd (Ptr.animate a 500 Sample.pointer0 Sample.env0)) = [a] /\
  currentX (fst (Ptr.animate a 500 Sample.pointer0 Sample.env0))
  = currentX Sample.pointer0.
Proof.
  intro a.
  assert (L : (Ptr.elapsedAt a 500 <? Fin 1)%num = true) by reflexivity.
  destruct (frame_in_flight a 500 Sample.pointer0 Sample.env0 L)
    as (X & _ & _ & F & _).
  split; [exact L|]. split; [exact F | exact X].
Defined.

(** With a negative [animationSpeed] no frame at or after the start time is
    the last one: the pointer stays busy and the frame is requested again. *)
Theorem negative_duration_never_completes :
  forall a now p e,
    a_duration a < 0 -> a_startTime a <= now ->
    let s := Ptr.animate a now p e in
    animating (fst s) = animating p /\
    currentX (fst s) = currentX p /\ currentY (fst s) = currentY p /\
    frames (snd s) = frames e ++ [a].
Proof.
  intros a now p e Hd Hn.
  assert (L : (Ptr.elapsedAt a now <? Fin 1)%num = true).
  { rewrite elapsedAt_fraction by lra. cbn [Nlt]. apply Qltb_true.
    eapply Qle_lt_trans; [apply Q.le_min_l|].
    apply Qle_lt_trans with 0; [|reflexivity].
    setoid_replace ((now - a_startTime a) / a_duration a)
      with (- ((now - a_startTime a) / - a_duration a)).
    + assert (P : 0 <= (now - a_startTime a) / - a_duration a).
      { apply Qle_shift_div_l; lra. }
      lra.
    + field. lra. }
  destruct (animate_in_flight a now p e L) as (A & B & C & _ & D & _).
  cbv zeta. repeat split; assumption.
Qed.

Lemma negative_duration_never_completes_witness :
  let a := mkAnim 288 148 None false false 500 400 (-212) (-252)
                  300 (-400) 32 0 0 in
  a_duration a < 0 /\ a_startTime a <= 100000 /\
  frames (snd (Ptr.animate a 100000 (fst Sample.underway) Sample.env0)) = [a] /\
  animating (fst (Ptr.animate a 100000 (fst Sample.underway) Sample.env0))
  = animating (fst Sample.underway).
Proof.
  intro a.
  assert (D : a_duration a < 0) by reflexivity.
  assert (N : a_startTime a <= 100000) by discriminate.
  destruct (negative_duration_never_completes a 100000
              (fst Sample.underway) Sample.env0 D N) as (A & _ & _ & F).
  split; [exact D|]. split; [exact N|]. split; [exact F | exact A].
Defined.



(** A frame of an animation with a note displays the note again although
    [hide()] was called in between, while the pointer element stays hidden:
    [hide] does not cancel the animation. *)
Theorem hide_does_not_cancel_animation :
  forall a now p e,
    truthy (a_note a) = true ->
    let p' := fst (Ptr.animate a now (Ptr.hide p) e) in
    animating (Ptr.hide p) = animating p /\
    pe_display (pointerEl p') = DisplayNone /\
    ne_display (noteEl p') = DisplayBlock.
Proof.
  intros a now p e Hn. unfold Ptr.animate. rewrite Hn.
  cbv zeta. split; [reflexivity|]. split; split_ifs; reflexivity.
Qed.

Lemma hide_does_not_cancel_animation_witness :
  let a := mkAnim 288 148 (Some "A") false false 500 400 (-212) (-252)
                  300 400 32 56 44 in
  ne_display (noteEl (fst (Ptr.animate a 500
                             (Ptr.hide (fst Sample.underway)) Sample.env0)))
  = DisplayBlock.
Proof.
  intro a.
  destruct (hide_does_not_cancel_animation a 500 (fst Sample.underway)
              Sample.env0 eq_refl) as (_ & _ & H).
  exact H.
Defined.

(** The note of a first step is not shown by the frames: they leave its
    visibility and opacity as [animateTo] set them, and only a frame on
    which [elapsed === 1] holds schedules the 10 ms callback that makes it
    visible; that is the frame that comes once a positive duration has
    passed.  With [animationSpeed] 0 and a frame at the start time the
    elapsed fraction is NaN: the animation ends on that frame and no
    callback is scheduled, so the note stays hidden.  The note of any other
    step is made visible by every frame and no callback is scheduled. *)
Theorem first_step_note_is_revealed_by_timer :
  forall a now p e,
    truthy (a_note a) = true ->
    let s := Ptr.animate a now p e in
    (a_isFirstStep a = true ->
     ne_visibility (noteEl (fst s)) = ne_visibility (noteEl p) /\
     ne_opacity (noteEl (fst s)) = ne_opacity (noteEl p) /\
     ((Ptr.elapsedAt a now =? Fin 1)%num = false ->
      timers (snd s) = timers e) /\
     ((Ptr.elapsedAt a now =? Fin 1)%num = true ->
      timers (snd s) = timers e ++ [(clock e + 10, Reveal)]) /\
     (a_duration a == 0 -> now == a_startTime a ->
      timers (snd s) = timers e /\ frames (snd s) = frames e /\
      animating (fst s) = false) /\
     ne_visibility (noteEl (Ptr.reveal (fst s))) = VisibilityVisible /\
     ne_opacity (noteEl (Ptr.reveal (fst s))) = Opacity1) /\
    (a_isFirstStep a = false ->
     ne_visibility (noteEl (fst s)) = VisibilityVisible /\
     ne_opacity (noteEl (fst s)) = Opacity1 /\
     timers (snd s) = timers e) /\
    (0 < a_duration a -> a_startTime a + a_duration a <= now ->
     (Ptr.elapsedAt a now =? Fin 1)%num = true).
Proof.
  intros a now p e Hn. cbv zeta.
  split; [|split].
  - intro Hf. unfold Ptr.animate. rewrite Hn, Hf. cbv zeta. cbn [negb].
    split; [split_ifs; reflexivity|]. split; [split_ifs; reflexivity|].
    split; [|split; [|split; [|split; split_ifs; reflexivity]]].
    + intros ->. split_ifs; reflexivity.
    + intros ->. split_ifs; reflexivity.
    + intros Hd Hs. rewrite (elapsedAt_nan a now Hd Hs). cbn.
      repeat split; split_ifs; reflexivity.
  - intro Hf. unfold Ptr.animate. rewrite Hn, Hf. cbv zeta. cbn [negb].
    repeat split; split_ifs; reflexivity.
  - intros Hd Hs. destruct (elapsedAt_done a now Hd Hs) as (q & E & Hq).
    rewrite E. cbn. apply Qeq_bool_iff. exact Hq.
Qed.

Lemma first_step_note_is_revealed_by_timer_witness :
  let a := mkAnim 288 148 (Some "A") true false 500 400 (-212) (-252)
                  300 400 32 56 44 in
  let z := mkAnim 288 148 (Some "A") true false 500 400 (-212) (-252)
                  300 0 32 56 44 in
  (Ptr.elapsedAt a 700 =? Fin 1)%num = true /\
  timers (snd (Ptr.animate a 700 Sample.pointer0 Sample.env0))
  = timers Sample.env0 ++ [(clock Sample.env0 + 10, Reveal)] /\
  a_duration z == 0 /\ 300 == a_startTime z /\
  timers (snd (Ptr.animate z 300 Sample.pointer0 Sample.env0))
  = timers Sample.env0.
Proof.
  intros a z.
  assert (D : (Ptr.elapsedAt a 700 =? Fin 1)%num = true) by reflexivity.
  assert (Z : a_duration z == 0) by reflexivity.
  assert (S : 300 == a_startTime z) by reflexivity.
  destruct (first_step_note_is_revealed_by_timer a 700 Sample.pointer0
              Sample.env0 eq_refl) as [F _].
  destruct (F eq_refl) as (_ & _ & _ & T & _).
  destruct (first_step_note_is_revealed_by_timer z 300 Sample.pointer0
              Sample.env0 eq_refl) as [Fz _].
  destruct (Fz eq_refl) as (_ & _ & _ & _ & N & _).
  split; [exact D|]. split; [exact (T D)|].
  split; [exact Z|]. split; [exact S|]. apply (N Z S).
Defined.

(** Scroll-into-view of [moveToElement]: a target that starts above the
    viewport ends with its top 100 px below the viewport's top, a target
    that reaches below the viewport ends with its bottom 100 px above the
    viewport's bottom, and a target inside the viewport causes no scroll. *)
Theorem scroll_into_view :
  forall pg target note first p e,
    let r := getBoundingClientRect pg e target in
    let e' := snd (Ptr.moveToElement pg target note first p e) in
    let r' := getBoundingClientRect pg e' target in
    (r_top r < 0 -> r_top r' == 100) /\
    (0 <= r_top r -> innerHeight e < r_bottom r ->
     r_bottom r' == innerHeight e - 100) /\
    (0 <= r_top r -> r_bottom r <= innerHeight e -> scrollY e' = scrollY e).
Proof.
  intros pg target note first p e. cbv zeta.
  unfold Ptr.moveToElement, Qgtb. cbn [snd].
  repeat split.
  - intro H. apply Qltb_true in H. rewrite H. cbn. ring.
  - intros H G. apply Qltb_false in H. apply Qltb_true in G.
    rewrite H, G. cbn. ring.
  - intros H G. apply Qltb_false in H. apply Qltb_false in G.
    rewrite H, G. reflexivity.
Qed.

Lemma scroll_into_view_witness :
  let r := getBoundingClientRect Sample.page Sample.env0 2%nat in
  0 <= r_top r /\ innerHeight Sample.env0 < r_bottom r /\
  r_bottom (getBoundingClientRect Sample.page
              (snd (Ptr.moveToElement Sample.page 2%nat None false
                      Sample.pointer0 Sample.env0)) 2%nat)
  == 800 - 100.
Proof.
  intro r.
  assert (A : 0 <= r_top r) by discriminate.
  assert (B : innerHeight Sample.env0 < r_bottom r) by reflexivity.
  destruct (scroll_into_view Sample.page 2%nat None false Sample.pointer0
              Sample.env0) as (_ & H & _).
  split; [exact A|]. split; [exact B | exact (H A B)].
Defined.

Lemma animateTo_completes pg x y note first flip p e dt :
  animating p = false -> frames e = [] ->
  0 <= nullish (animationSpeed (options p)) 400 ->
  nullish (animationSpeed (options p)) 400 <= dt ->
  let s1 := Ptr.animateTo pg x y note first flip p e in
  let s2 := Loop.frame (fst s1) (Loop.elapse dt (snd s1)) in
  currentX (fst s2) = x /\ currentY (fst s2) = y /\
  animating (fst s2) = false /\ frames (snd s2) = [].
Proof.
  intros Hidle Hf Hd Hdt.
  destruct (animateTo_idle pg x y note first flip p e Hidle)
    as (p1 & a & E & _ & _ & _ & _ & _ & Ax & Ay & _ & _ & _ & _
        & At & Ad & _).
  cbv zeta. rewrite E. cbn [fst snd]. unfold Loop.frame.
  cbn [frames Loop.elapse requestAnimationFrame env_set_frames env_set_clock
       clock].
  rewrite Hf. cbn [app Loop.runFrames].
  assert (D : (Ptr.elapsedAt a (clock e + dt) <? Fin 1)%num = false).
  { apply elapsedAt_not_below_1; rewrite ?At, Ad; lra. }
  pose proof (animate_last_frame a (clock e + dt) p1
                (env_set_frames []
                   (env_set_clock (clock e + dt)
                      (env_set_frames ([] ++ [a]) e))) D) as L.
  cbn [app] in L.
  destruct (Ptr.animate _ _ _ _) as [p2 e2]. cbn [fst snd].
  destruct L as (Lx & Ly & La & Lf). rewrite Lx, Ly, Ax, Ay.
  repeat split; assumption.
Qed.

(** A whole move.  On an idle pointer with nothing else scheduled,
    [moveToElement], its callback 300 ms later and one frame at least
    [animationSpeed] ms after that leave the pointer at rest, not busy, with
    no frame pending, and at least the 8 px margin away from the window's
    top and left edges. *)
Theorem move_lands_inside_margin :
  forall pg target note first p e dt,
    animating p = false -> timers e = [] -> frames e = [] ->
    0 <= nullish (animationSpeed (options p)) 400 ->
    nullish (animationSpeed (options p)) 400 <= dt ->
    let s1 := Ptr.moveToElement pg target note first p e in
    let s2 := Loop.fireTimer pg (fst s1) (Loop.elapse 300 (snd s1)) in
    let s3 := Loop.frame (fst s2) (Loop.elapse dt (snd s2)) in
    animating (fst s2) = true /\
    animating (fst s3) = false /\ frames (snd s3) = [] /\
    8 <= currentX (fst s3) /\ 8 <= currentY (fst s3).
Proof.
  intros pg target note first p e dt Hidle Ht Hf Hd Hdt. cbv zeta.
  unfold Ptr.moveToElement. cbn [fst snd].
  set (e' := if Qltb _ 0 then _ else _).
  assert (Ht' : timers e' = []) by (subst e'; split_ifs; exact Ht).
  assert (Hf' : frames e' = []) by (subst e'; split_ifs; exact Hf).
  unfold Loop.fireTimer.
  cbn [timers clock Loop.elapse setTimeout env_set_timers env_set_clock].
  rewrite Ht'. cbn [app Loop.popDue].
  assert (Q : Qle_bool (clock e' + 300) (clock e' + 300) = true)
    by (apply Qle_bool_iff, Qle_refl).
  rewrite Q. cbn [Loop.runTask].
  match goal with
  | |- context [Ptr.settle pg target note first ?vw ?vh p ?e2] =>
      set (env2 := e2);
      destruct (settle_calls_animateTo pg target note first vw vh p env2)
        as (x & y & flip & p1 & E & Ha & Ho & _ & _ & _ & Hx & Hy)
  end.
  rewrite E.
  assert (Hidle1 : animating p1 = false) by congruence.
  assert (Hf2 : frames env2 = []) by (subst env2; exact Hf').
  split.
  - destruct (animateTo_idle pg x y note first flip p1 env2 Hidle1)
      as (p2 & a & E2 & A2 & _). rewrite E2. exact A2.
  - rewrite <- Ho in Hd, Hdt.
    destruct (animateTo_completes pg x y note first flip p1 env2 dt
                Hidle1 Hf2 Hd Hdt) as (Cx & Cy & Ca & Cf).
    rewrite Cx, Cy. repeat split; assumption.
Qed.

Lemma move_lands_inside_margin_witness :
  let s1 := Ptr.moveToElement Sample.page 1%nat (Some "A") false
              Sample.pointer0 Sample.env0 in
  let s2 := Loop.fireTimer Sample.page (fst s1) (Loop.elapse 300 (snd s1)) in
  let s3 := Loop.frame (fst s2) (Loop.elapse 400 (snd s2)) in
  animating (fst s3) = false /\ 8 <= currentX (fst s3).
Proof.
  assert (D : 0 <= nullish (animationSpeed (options Sample.pointer0)) 400)
    by discriminate.
  assert (T : nullish (animationSpeed (options Sample.pointer0)) 400 <= 400)
    by discriminate.
  destruct (move_lands_inside_margin Sample.page 1%nat (Some "A") false
              Sample.pointer0 Sample.env0 400 eq_refl eq_refl eq_refl D T)
    as (_ & A & _ & X & _).
  cbv zeta. split; [exact A | exact X].
Defined.


(** ** Placement of the note below the pointer *)

Lemma elapsedAt_final a now :
  0 <= a_duration a -> a_startTime a + a_duration a <= now ->
  (exists q, Ptr.elapsedAt a now = Fin q /\ q == 1) \/
  Ptr.elapsedAt a now = NaN.
Proof.
  intros Hd Hn.
  destruct (Qeq_dec (a_duration a) 0) as [Z | N].
  - unfold Ptr.elapsedAt. rewrite divide_zero by exact Z.
    destruct (Qcompare_spec (now - a_startTime a) 0) as [E | L | G].
    + right. reflexivity.
    + exfalso. lra.
    + left. exists 1. split; reflexivity.
  - left. apply elapsedAt_done; [lra | exact Hn].
Qed.

Lemma animateTo_idle_note pg x y note first flip p e :
  animating p = false -> truthy note = true ->
  exists p1 a,
    Ptr.animateTo pg x y note first flip p e
    = (p1, requestAnimationFrame a e) /\
    a_y a = y /\ a_startY a = currentY p /\ a_deltaY a = y - currentY p /\
    a_startTime a = clock e /\
    a_duration a = nullish (animationSpeed (options p)) 400 /\
    a_note a = note /\ a_flip a = flip /\
    a_pointerSize a = nullish (pointerSize (options p)) 32 /\
    a_noteHeight a = snd (noteBox pg (or_else note EmptyString)) /\
    ne_top (noteEl p1) = Px (-9999).
Proof.
  intros H Hn. unfold Ptr.animateTo. rewrite H, Hn.
  destruct first; cbn; do 2 eexists; (split; [reflexivity|]); cbn;
    repeat split.
Qed.

Lemma animate_note_top a now p e :
  truthy (a_note a) = true ->
  let curY := (Fin (a_startY a)
               + Fin (a_deltaY a) * Ptr.ease (Ptr.elapsedAt a now))%num in
  ne_top (noteEl (fst (Ptr.animate a now p e)))
  = assignPx (if a_flip a
              then (curY - Fin (a_noteHeight a) - Fin 12)%num
              else (curY + Fin (a_pointerSize a + 8))%num)
             (ne_top (noteEl p)).
Proof.
  intro Hn. unfold Ptr.animate. rewrite Hn. cbv zeta.
  split_ifs; reflexivity.
Qed.



(** * Further properties of the flow *)

Lemma andThen_Returned s k : andThen (Returned s) k = k (fst s) (snd s).
Proof.
  destruct s as [f e]. unfold andThen, Returned. cbn [fst snd].
  destruct (k f e). reflexivity.
Qed.

Lemma andThen_state o k :
  managerOf (andThen o k) = managerOf (k (managerOf o) (envOf o)) /\
  envOf (andThen o k) = envOf (k (managerOf o) (envOf o)) /\
  thrown (andThen o k) = thrown o ++ thrown (k (managerOf o) (envOf o)).
Proof.
  destruct o as [[f e] errs]. unfold andThen, managerOf, envOf, thrown.
  cbn [fst snd]. destruct (k f e) as [[f1 e1] errs1]. repeat split.
Qed.

Lemma validSelectors_skipn pg n :
  forall l, validSelectors pg l -> validSelectors pg (skipn n l).
Proof.
  unfold validSelectors.
  induction n as [|n IH]; intros [|x l] H; cbn; auto.
  inversion H; subst. apply IH. assumption.
Qed.

Lemma missingPrefix_pathname pg e1 e2 rest :
  pathname e1 = pathname e2 ->
  missingPrefix pg e1 rest = missingPrefix pg e2 rest.
Proof.
  intro H. induction rest as [|step rest IH]; [reflexivity|].
  cbn [missingPrefix]. unfold isMissing, Flow.mustNavigate.
  rewrite H, IH. reflexivity.
Qed.

Lemma runStepFrom_skips pg rest :
  forall f e,
    running f = true -> pointer f <> None ->
    let skipped := missingPrefix pg e rest in
    let o := Flow.runStepFrom pg rest f e in
    currentStep (managerOf o) = (currentStep f + List.length skipped)%nat /\
    console (envOf o)
    = console e ++ notFoundWarnings (currentStep f) skipped /\
    thrown o
    = match nth_error rest (List.length skipped) with
      | Some step => if isInvalid pg e step then [SyntaxError] else []
      | None => []
      end /\
    (running (managerOf o) = false <-> skipped = rest).
Proof.
  induction rest as [|step rest IH]; intros f e Hr Hp; cbv zeta.
  - cbn [Flow.runStepFrom missingPrefix notFoundWarnings List.length
         nth_error].
    pose proof (stop_frame f e) as F. cbv zeta in F.
    destruct (Flow.stop f e) as [f1 e1]. cbn [fst snd] in F.
    destruct F as (Fr & Fc & _ & _ & _ & Fw & _).
    cbn. rewrite Nat.add_0_r, app_nil_r. repeat split; auto.
  - cbn [Flow.runStepFrom]. rewrite Hr. cbn [negb].
    cbn [missingPrefix]. unfold isMissing, isInvalid.
    destruct (Flow.mustNavigate step e) eqn:Hnav.
    { cbn. rewrite Nat.add_0_r, app_nil_r, Hr, Hnav.
      repeat split; intro; discriminate. }
    destruct (querySelector pg (element step)) as [el| |] eqn:Hq.
    + destruct (pointer f) as [p|]; [|contradiction].
      pose proof (moveToElement_frame pg el (Some (note step))
                    (Nat.eqb (currentStep f) 0) (Ptr.show p) e) as M.
      destruct (Ptr.moveToElement _ _ _ _ _ _) as [p1 e1].
      cbn [fst snd] in M. destruct M as (_ & Mc & _).
      cbn. rewrite Nat.add_0_r, app_nil_r, Hr, Mc, Hnav, Hq.
      repeat split; intro; discriminate.
    + cbn [negb andb List.length nth_error].
      specialize (IH (fm_set_currentStep (S (currentStep f)) f)
                     (warn (ElementNotFound (element step)
                                            (currentStep f + 1)) e)
                     Hr Hp).
      cbv zeta in IH.
      rewrite (missingPrefix_pathname pg _ e rest) in IH by reflexivity.
      destruct IH as (Hc & Hw & Ht & Hrun).
      cbn [currentStep fm_set_currentStep console warn env_set_console]
        in Hc, Hw.
      split; [lia|].
      split; [rewrite Hw, <- app_assoc; reflexivity|].
      split.
      * rewrite Ht.
        destruct (nth_error rest
                    (List.length (missingPrefix pg e rest))); reflexivity.
      * rewrite Hrun. split; [intros ->; reflexivity|].
        intro E. now injection E.
    + cbn. rewrite Nat.add_0_r, app_nil_r, Hr, Hnav, Hq.
      repeat split; intro; discriminate.
Qed.



(** Whether [runStep] throws: never a [TypeError] when a running flow has
    its pointer, and nothing at all when the selectors are valid. *)
Lemma runStepFrom_thrown pg rest :
  forall f e,
    (running f = true -> pointer f <> None) ->
    ~ In TypeError (thrown (Flow.runStepFrom pg rest f e)) /\
    (validSelectors pg rest -> thrown (Flow.runStepFrom pg rest f e) = []).
Proof.
  induction rest as [|step rest IH]; intros f e Hp; cbn [Flow.runStepFrom].
  - split; [intros [] | reflexivity].
  - destruct (running f) eqn:Hr in |- *; cbn [negb];
      [|split; [intros [] | reflexivity]].
    destruct (Flow.mustNavigate step e);
      [split; [intros [] | reflexivity]|].
    destruct (querySelector pg (element step)) as [el| |] eqn:Hq.
    + destruct (pointer f) as [p|] eqn:P;
        [|exfalso; now apply (Hp Hr)].
      destruct (Ptr.moveToElement _ _ _ _ _ _) as [p1 e1].
      split; [intros [] | reflexivity].
    + destruct (IH (fm_set_currentStep (S (currentStep f)) f)
                   (warn (ElementNotFound (element step)
                                          (currentStep f + 1)) e) Hp)
        as [I1 I2].
      split; [exact I1|]. intro V. apply I2. now inversion V.
    + split.
      * intros [C | []]. discriminate C.
      * intro V. inversion V; subst. contradiction.
Qed.

Lemma stop_restored f e :
  let s := Flow.stop f e in
  bodyOverflow (snd s) = fst (restored f e) /\
  keydownListeners (snd s) = snd (restored f e) /\
  keyHandler (fst s) = None /\ _prevOverflow (fst s) = None /\
  restored (fst s) (snd s) = restored f e.
Proof.
  destruct f as [st [p|] cs r po fo [k|] [o|]]; cbn; repeat split.
Qed.

(** Whatever [runStep] does, a later [stop] writes back what a [stop] in
    its place would have. *)
Lemma runStepFrom_restored pg rest :
  forall f e,
    let o := Flow.runStepFrom pg rest f e in
    restored (managerOf o) (envOf o) = restored f e.
Proof.
  induction rest as [|step rest IH]; intros f e; cbv zeta;
    cbn [Flow.runStepFrom].
  - apply (stop_restored f e).
  - destruct (negb (running f)); [apply (stop_restored f e)|].
    destruct (Flow.mustNavigate step e); [reflexivity|].
    destruct (querySelector pg (element step)) as [el| |].
    + destruct (pointer f) as [p|]; [|reflexivity].
      pose proof (moveToElement_frame pg el (Some (note step))
                    (Nat.eqb (currentStep f) 0) (Ptr.show p) e) as M.
      destruct (Ptr.moveToElement _ _ _ _ _ _) as [p1 e1].
      cbn [fst snd] in M. destruct M as (_ & _ & Mo & Mk & _).
      unfold restored. cbn. now rewrite Mo, Mk.
    + rewrite IH. reflexivity.
    + reflexivity.
Qed.

Lemma remove_fresh_last (k : nat) (l : list nat) :
  ~ In k l -> List.remove Nat.eq_dec k (l ++ [k]) = l.
Proof.
  intro H. rewrite remove_app. cbn.
  destruct (Nat.eq_dec k k) as [_|N]; [|contradiction].
  rewrite app_nil_r. apply notin_remove. exact H.
Qed.

(** The state in which [start] calls [runStep], for a non-empty array. *)
Lemma start_unfold pg s l f e :
  exists f0 e0,
    Flow.start pg (StepsArray (s :: l)) f e = Flow.runStep pg f0 e0 /\
    pointer f0 <> None /\
    steps f0 = s :: l /\ currentStep f0 = 0%nat /\ running f0 = true /\
    pointerOptions f0 = pointerOptions f /\ flowOptions f0 = flowOptions f /\
    clickListeners e0 = clickListeners e /\
    restored f0 e0
    = (bodyOverflow e,
       if nullish (keyboardNavigation (flowOptions f)) false
       then List.remove Nat.eq_dec (nextListener e)
              (keydownListeners e ++ [nextListener e])
       else snd (restored f e)).
Proof.
  unfold Flow.start, restored.
  destruct f as [st [p|] cs r po fo kh pv];
    cbn [fm_set_running fm_set_currentStep fm_set_steps fm_set_pointer
         fm_set_prevOverflow pointer pointerOptions flowOptions keyHandler
         _prevOverflow];
    destruct (nullish (keyboardNavigation fo) false);
    cbv beta iota zeta;
    do 2 eexists; (split; [reflexivity|]);
    cbn; repeat split; discriminate.
Qed.

(** [start] creates the pointer before it runs the first step, so it throws
    no [TypeError]; with valid selectors it returns. *)
Lemma start_thrown pg arg f e :
  ~ In TypeError (thrown (Flow.start pg arg f e)) /\
  (match arg with
   | StepsArray l => validSelectors pg l
   | NotAnArray => True
   end -> thrown (Flow.start pg arg f e) = []).
Proof.
  destruct arg as [[|s l]|]; try (split; [intros [] | reflexivity]).
  destruct (start_unfold pg s l f e)
    as (f0 & e0 & E & Hp & Hs & Hc & _).
  rewrite E. unfold Flow.runStep. rewrite Hs, Hc. cbn [skipn].
  apply runStepFrom_thrown. intros _. exact Hp.
Qed.





(** While the flow runs, a key other than Enter, ArrowRight, ArrowLeft and
    Escape does nothing, and ArrowLeft on the first step does nothing. *)
Theorem keys_without_effect :
  forall pg key f e,
    running f = true ->
    (String.eqb key "Enter" = false -> String.eqb key "ArrowRight" = false ->
     String.eqb key "ArrowLeft" = false -> String.eqb key "Escape" = false ->
     Flow.onKeydown pg key f e = Returned (f, e)) /\
    (currentStep f = 0%nat ->
     Flow.onKeydown pg "ArrowLeft" f e = Returned (f, e)).
Proof.
  intros pg key f e Hr. unfold Flow.onKeydown. rewrite Hr. cbn [negb].
  split.
  - intros -> -> -> ->. reflexivity.
  - intro H0. cbn. unfold Flow.goBackStep. rewrite H0. reflexivity.
Qed.

Lemma keys_without_effect_witness :
  let f := fst FlowSample.onLastStep in
  let e := snd FlowSample.onLastStep in
  running f = true /\
  Flow.onKeydown Sample.page "Tab" f e = Returned (f, e) /\
  Flow.onKeydown Sample.page "ArrowLeft" f e = Returned (f, e).
Proof.
  intros f e.
  assert (R : running f = true) by (vm_compute; reflexivity).
  assert (Z : currentStep f = 0%nat) by (vm_compute; reflexivity).
  destruct (keys_without_effect Sample.page "Tab" f e R) as [U L].
  split; [exact R|].
  split; [apply U; reflexivity | exact (L Z)].
Defined.

Lemma runStepFrom_frame pg rest :
  forall f e,
    let o := Flow.runStepFrom pg rest f e in
    pointerOptions (managerOf o) = pointerOptions f /\
    flowOptions (managerOf o) = flowOptions f /\
    steps (managerOf o) = steps f /\
    (pointer f <> None -> pointer (managerOf o) <> None) /\
    (exists l, clickListeners (envOf o) = clickListeners e ++ l).
Proof.
  assert (St : forall f e,
            let o := Returned (Flow.stop f e) in
            pointerOptions (managerOf o) = pointerOptions f /\
            flowOptions (managerOf o) = flowOptions f /\
            steps (managerOf o) = steps f /\
            (pointer f <> None -> pointer (managerOf o) <> None) /\
            (exists l, clickListeners (envOf o) = clickListeners e ++ l)).
  { intros f e. pose proof (stop_frame f e) as F. cbv zeta in F |- *.
    destruct (Flow.stop f e) as [f1 e1]. cbn [fst snd] in F. cbn.
    destruct F as (_ & _ & Ss & Sp & So & _ & _ & _ & Sc & _ & _ & Sn).
    repeat split; try assumption.
    - intros N C. apply N, Sn, C.
    - exists []. now rewrite app_nil_r. }
  induction rest as [|step rest IH]; intros f e; cbv zeta;
    cbn [Flow.runStepFrom].
  - apply St.
  - destruct (negb (running f)); [apply St|].
    destruct (Flow.mustNavigate step e).
    { cbn. repeat split; try tauto. exists []. now rewrite app_nil_r. }
    destruct (querySelector pg (element step)) as [el| |].
    + destruct (pointer f) as [p|].
      * pose proof (moveToElement_frame pg el (Some (note step))
                      (Nat.eqb (currentStep f) 0) (Ptr.show p) e) as M.
        destruct (Ptr.moveToElement _ _ _ _ _ _) as [p1 e1].
        cbn [fst snd] in M. destruct M as (_ & _ & _ & _ & Mc & _).
        cbn. repeat split; try discriminate.
        rewrite Mc. eexists; reflexivity.
      * cbn. repeat split; try tauto. exists []. now rewrite app_nil_r.
    + specialize (IH (fm_set_currentStep (S (currentStep f)) f)
                     (warn (ElementNotFound (element step)
                                            (currentStep f + 1)) e)).
      cbv zeta in IH. cbn in IH.
      destruct IH as (Hp & Ho & Hs & Hn & l & Hl).
      repeat split; try assumption.
      exists l. exact Hl.
    + cbn. repeat split; try tauto. exists []. now rewrite app_nil_r.
Qed.



Lemma next_not_running pg l f e :
  running f = false ->
  Loop.next pg l f e
  = Returned (Flow.stop (fm_set_currentStep (S (currentStep f)) f)
                (env_set_clicks
                   (filter (fun l' => negb (Loop.sameListener l l'))
                           (clickListeners e)) e)).
Proof.
  intro H. unfold Loop.next, Flow.advanceStep, Flow.runStep.
  apply runStepFrom_not_running. exact H.
Qed.

Lemma dispatchClick_not_running pg el ls :
  forall f e,
    running f = false ->
    exists f' e',
      Loop.dispatchClick pg el ls f e = Returned (f', e') /\
      running f' = false /\ (currentStep f <= currentStep f')%nat /\
      steps f' = steps f /\
      timers e' = timers e /\ frames e' = frames e /\
      scrollY e' = scrollY e.
Proof.
  induction ls as [|l ls IH]; intros f e Hr; cbn [Loop.dispatchClick].
  - exists f, e. repeat split; auto.
  - destruct (Nat.eqb (fst l) el && existsb (Loop.sameListener l)
                                           (clickListeners e)).
    + rewrite (next_not_running pg l f e Hr), andThen_Returned.
      match goal with
      | |- context [Flow.stop ?g ?h] =>
          pose proof (stop_frame g h) as F; cbv zeta in F;
          destruct (Flow.stop g h) as [f1 e1]
      end.
      cbn [fst snd] in F |- *.
      destruct F as (Fr & Fc & Fs & _ & _ & _ & Ft & Ff & _ & Fy & _).
      destruct (IH f1 e1 Fr) as (f' & e' & H & R & C & St & T & Fm & Y).
      exists f', e'. split; [exact H|]. cbn in Fc, Fs, Ft, Ff, Fy.
      repeat split; try congruence. lia.
    + apply IH. exact Hr.
Qed.

(** A click on a page element while the flow is stopped cannot restart it:
    the click listeners that are still attached only bump the step index;
    the flow stays stopped and no timer, animation frame or scroll is
    requested. *)
Theorem click_after_stop_does_not_restart :
  forall pg el f e,
    running f = false ->
    exists f' e',
      Loop.click pg el f e = Returned (f', e') /\
      running f' = false /\ (currentStep f <= currentStep f')%nat /\
      steps f' = steps f /\
      timers e' = timers e /\ frames e' = frames e /\
      scrollY e' = scrollY e.
Proof.
  intros pg el f e H. apply dispatchClick_not_running, H.
Qed.

Lemma click_after_stop_does_not_restart_witness :
  let f := fst (Flow.stop (fst FlowSample.onLastStep)
                          (snd FlowSample.onLastStep)) in
  let e := snd (Flow.stop (fst FlowSample.onLastStep)
                          (snd FlowSample.onLastStep)) in
  clickListeners e = [(1%nat, 1%nat)] /\
  exists f' e',
    Loop.click Sample.page 1%nat f e = Returned (f', e') /\
    running f' = false /\ timers e' = timers e.
Proof.
  intros f e.
  assert (C : clickListeners e = [(1%nat, 1%nat)]) by (vm_compute; reflexivity).
  assert (R : running f = false) by apply stop_running.
  destruct (click_after_stop_does_not_restart Sample.page 1%nat f e R)
    as (f' & e' & H & R' & _ & _ & T & _).
  split; [exact C|]. exists f', e'. split; [exact H|].
  split; [exact R' | exact T].
Defined.



(** ** What a call or an event can throw *)

Lemma returned_safe (pg : Page) po fo (f f' : FlowManager) (e' : Env) :
  consistent po fo f' -> steps f' = steps f ->
  let o := Returned (f', e') in
  consistent po fo (managerOf o) /\ steps (managerOf o) = steps f /\
  ~ In TypeError (thrown o) /\
  (validSelectors pg (steps f) -> thrown o = []).
Proof.
  intros C S. cbn. repeat split; try apply C; try exact S.
  intros [].
Qed.

Lemma stop_consistent po fo f e :
  consistent po fo f -> consistent po fo (fst (Flow.stop f e)).
Proof.
  intros (_ & Hp & Ho). pose proof (stop_frame f e) as F. cbv zeta in F.
  destruct F as (Fr & _ & _ & Fp & Fo & _).
  split; [intro C; congruence|]. split; congruence.
Qed.

Lemma runStepFrom_consistent pg rest po fo f e :
  consistent po fo f ->
  consistent po fo (managerOf (Flow.runStepFrom pg rest f e)).
Proof.
  intros (Hs & Hp & Ho).
  destruct (runStepFrom_frame pg rest f e) as (Fp & Fo & _ & Fn & _).
  split; [|split; congruence].
  destruct (pointer f) as [p|] eqn:P.
  - intros _. apply Fn. discriminate.
  - assert (R : running f = false).
    { destruct (running f); [|reflexivity]. exfalso. now apply Hs. }
    rewrite (runStepFrom_not_running pg rest f e R).
    intro C. change (running (fst (Flow.stop f e)) = true) in C.
    rewrite stop_running in C. discriminate C.
Qed.

Lemma runStep_safe pg po fo f g e :
  consistent po fo g -> steps g = steps f ->
  let o := Flow.runStep pg g e in
  consistent po fo (managerOf o) /\ steps (managerOf o) = steps f /\
  ~ In TypeError (thrown o) /\
  (validSelectors pg (steps f) -> thrown o = []).
Proof.
  intros C S. cbv zeta. unfold Flow.runStep.
  destruct (runStepFrom_frame pg (skipn (currentStep g) (steps g)) g e)
    as (_ & _ & Fs & _).
  destruct (runStepFrom_thrown pg (skipn (currentStep g) (steps g)) g e
              (proj1 C)) as [T V].
  split; [apply runStepFrom_consistent, C|].
  split; [congruence|]. split; [exact T|].
  intro W. apply V. rewrite S. apply validSelectors_skipn, W.
Qed.

Lemma onKeydown_safe pg key po fo f e :
  consistent po fo f ->
  let o := Flow.onKeydown pg key f e in
  consistent po fo (managerOf o) /\ steps (managerOf o) = steps f /\
  ~ In TypeError (thrown o) /\
  (validSelectors pg (steps f) -> thrown o = []).
Proof.
  intro C. cbv zeta.
  unfold Flow.onKeydown, Flow.advanceStep, Flow.goBackStep.
  destruct (negb (running f)); [now apply returned_safe|].
  destruct (String.eqb key "Enter" || String.eqb key "ArrowRight").
  { apply runStep_safe; [exact C | reflexivity]. }
  destruct (String.eqb key "ArrowLeft").
  { destruct (0 <? currentStep f)%nat.
    - apply runStep_safe; [exact C | reflexivity].
    - now apply returned_safe. }
  destruct (String.eqb key "Escape"); [|now apply returned_safe].
  pose proof (stop_consistent po fo f e C) as S.
  pose proof (stop_frame f e) as F. cbv zeta in F.
  destruct (Flow.stop f e) as [f1 e1]. cbn [fst snd] in S, F.
  apply returned_safe; [exact S | apply F].
Qed.

(** Listeners called one after the other: what holds of each holds of the
    whole dispatch. *)
Lemma andThen_safe pg po fo f o k :
  (consistent po fo (managerOf o) /\ steps (managerOf o) = steps f /\
   ~ In TypeError (thrown o) /\
   (validSelectors pg (steps f) -> thrown o = [])) ->
  (forall g e,
     consistent po fo g -> steps g = steps f ->
     consistent po fo (managerOf (k g e)) /\
     steps (managerOf (k g e)) = steps f /\
     ~ In TypeError (thrown (k g e)) /\
     (validSelectors pg (steps f) -> thrown (k g e) = [])) ->
  consistent po fo (managerOf (andThen o k)) /\
  steps (managerOf (andThen o k)) = steps f /\
  ~ In TypeError (thrown (andThen o k)) /\
  (validSelectors pg (steps f) -> thrown (andThen o k) = []).
Proof.
  intros (C & S & T & V) K.
  destruct (andThen_state o k) as (Em & _ & Et).
  destruct (K (managerOf o) (envOf o) C S) as (C1 & S1 & T1 & V1).
  rewrite Em, Et.
  split; [exact C1|]. split; [exact S1|]. split.
  - intro I. apply in_app_or in I. tauto.
  - intro W. rewrite (V W), (V1 W). reflexivity.
Qed.

Lemma dispatchKeydown_safe pg key po fo f ks :
  forall g e,
    consistent po fo g -> steps g = steps f ->
    consistent po fo (managerOf (Loop.dispatchKeydown pg key ks g e)) /\
    steps (managerOf (Loop.dispatchKeydown pg key ks g e)) = steps f /\
    ~ In TypeError (thrown (Loop.dispatchKeydown pg key ks g e)) /\
    (validSelectors pg (steps f) ->
     thrown (Loop.dispatchKeydown pg key ks g e) = []).
Proof.
  induction ks as [|k ks IH]; intros g e C S; cbn [Loop.dispatchKeydown].
  - now apply returned_safe.
  - destruct (existsb (Nat.eqb k) (keydownListeners e)); [|now apply IH].
    apply andThen_safe; [|exact IH].
    rewrite <- S. apply onKeydown_safe, C.
Qed.

Lemma dispatchClick_safe pg el po fo f ls :
  forall g e,
    consistent po fo g -> steps g = steps f ->
    consistent po fo (managerOf (Loop.dispatchClick pg el ls g e)) /\
    steps (managerOf (Loop.dispatchClick pg el ls g e)) = steps f /\
    ~ In TypeError (thrown (Loop.dispatchClick pg el ls g e)) /\
    (validSelectors pg (steps f) ->
     thrown (Loop.dispatchClick pg el ls g e) = []).
Proof.
  induction ls as [|l ls IH]; intros g e C S; cbn [Loop.dispatchClick].
  - now apply returned_safe.
  - destruct (Nat.eqb (fst l) el && existsb (Loop.sameListener l)
                                           (clickListeners e));
      [|now apply IH].
    apply andThen_safe; [|exact IH].
    unfold Loop.next, Flow.advanceStep.
    apply runStep_safe; [exact C | exact S].
Qed.

Lemma onPointer_consistent k po fo f e :
  consistent po fo f -> consistent po fo (fst (Loop.onPointer k f e)).
Proof.
  intro C. unfold Loop.onPointer.
  destruct (pointer f) as [p|] in |- *; [|exact C].
  destruct C as (Hs & Hp & Ho).
  destruct (k p e) as [p1 e1]. cbn.
  split; [intros _; discriminate|]. split; assumption.
Qed.

Lemma onPointer_steps k f e : steps (fst (Loop.onPointer k f e)) = steps f.
Proof.
  unfold Loop.onPointer. destruct (pointer f) as [p|]; [|reflexivity].
  destruct (k p e). reflexivity.
Qed.

Lemma start_consistent pg arg po fo f e :
  consistent po fo f ->
  consistent po fo (managerOf (Flow.start pg arg f e)) /\
  steps (managerOf (Flow.start pg arg f e))
  = match arg with
    | StepsArray (s :: l) => s :: l
    | _ => steps f
    end.
Proof.
  intro C. destruct arg as [[|s l]|]; try (split; [exact C | reflexivity]).
  destruct (start_unfold pg s l f e)
    as (f0 & e0 & E & Hp & Hs & _ & _ & Hpo & Hfo & _).
  rewrite E. unfold Flow.runStep.
  destruct (runStepFrom_frame pg (skipn (currentStep f0) (steps f0)) f0 e0)
    as (_ & _ & Fs & _).
  split; [|congruence].
  apply runStepFrom_consistent.
  destruct C as (_ & Cp & Co).
  split; [intros _; exact Hp|]. split; congruence.
Qed.

Lemma act_safe pg a po fo f e :
  consistent po fo f ->
  let o := act pg a f e in
  consistent po fo (managerOf o) /\
  ~ In TypeError (thrown o) /\
  (validSelectors pg (steps f) ->
   match a with
   | CallStart (StepsArray l) => validSelectors pg l
   | _ => True
   end ->
   thrown o = [] /\ validSelectors pg (steps (managerOf o))).
Proof.
  intro C. cbv zeta.
  assert (R : forall o,
            (consistent po fo (managerOf o) /\ steps (managerOf o) = steps f /\
             ~ In TypeError (thrown o) /\
             (validSelectors pg (steps f) -> thrown o = [])) ->
            consistent po fo (managerOf o) /\
            ~ In TypeError (thrown o) /\
            (validSelectors pg (steps f) -> True ->
             thrown o = [] /\ validSelectors pg (steps (managerOf o)))).
  { intros o (C1 & S1 & T1 & V1). split; [exact C1|]. split; [exact T1|].
    intros W _. split; [exact (V1 W) | rewrite S1; exact W]. }
  destruct a as [arg| | | | | | | |]; cbn [act].
  - destruct (start_consistent pg arg po fo f e C) as [C1 S1].
    destruct (start_thrown pg arg f e) as [T1 V1].
    split; [exact C1|]. split; [exact T1|].
    intros W A. rewrite S1.
    destruct arg as [[|s l]|]; (split; [apply V1; exact A|]); assumption.
  - apply R. pose proof (stop_consistent po fo f e C) as S.
    pose proof (stop_frame f e) as F. cbv zeta in F.
    destruct (Flow.stop f e) as [f1 e1]. cbn [fst snd] in S, F.
    apply returned_safe; [exact S | apply F].
  - apply R. apply returned_safe; [|reflexivity].
    destruct C as (_ & Cp & Co). unfold Flow.setInitialPosition.
    cbn. split; [intros _; discriminate|]. split; assumption.
  - apply R. apply dispatchKeydown_safe; [exact C | reflexivity].
  - apply R. apply dispatchClick_safe; [exact C | reflexivity].
  - apply R. unfold Loop.flowTimer.
    destruct (Loop.popDue (clock e) (timers e)) as [[t rest]|];
      [|now apply returned_safe].
    destruct t;
      try (apply runStep_safe; [exact C | reflexivity]);
      match goal with
      | |- context [Loop.onPointer ?k f ?h] =>
          pose proof (onPointer_consistent k po fo f h C) as S;
          pose proof (onPointer_steps k f h) as St;
          destruct (Loop.onPointer k f h) as [f1 e1]
      end; cbn [fst] in S, St; now apply returned_safe.
  - apply R. pose proof (onPointer_consistent Loop.frame po fo f e C) as S.
    pose proof (onPointer_steps Loop.frame f e) as St.
    unfold Loop.flowFrame.
    destruct (Loop.onPointer Loop.frame f e) as [f1 e1].
    cbn [fst] in S, St. now apply returned_safe.
  - apply R. now apply returned_safe.
  - apply R. now apply returned_safe.
Qed.

Lemma run_safe pg acts po fo :
  forall f e,
    consistent po fo f ->
    consistent po fo (managerOf (run pg acts f e)) /\
    ~ In TypeError (thrown (run pg acts f e)) /\
    (validSelectors pg (steps f) -> validActions pg acts ->
     thrown (run pg acts f e) = []).
Proof.
  induction acts as [|a acts IH]; intros f e C; cbn [run].
  - split; [exact C|]. split; [intros [] | reflexivity].
  - destruct (act_safe pg a po fo f e C) as (C1 & T1 & V1).
    destruct (andThen_state (act pg a f e) (run pg acts)) as (Em & _ & Et).
    destruct (IH (managerOf (act pg a f e)) (envOf (act pg a f e)) C1)
      as (C2 & T2 & V2).
    rewrite Em, Et. split; [exact C2|]. split.
    + intro I. apply in_app_or in I. tauto.
    + intros W A. inversion A as [|a' acts' Ha Hacts]; subst.
      destruct (V1 W Ha) as [E1 W1].
      rewrite E1, (V2 W1 Hacts). reflexivity.
Qed.



(** ** The singleton *)

Lemma start_options pg arg f e :
  pointerOptions (managerOf (Flow.start pg arg f e)) = pointerOptions f /\
  flowOptions (managerOf (Flow.start pg arg f e)) = flowOptions f.
Proof.
  destruct arg as [[|s l]|]; try (split; reflexivity).
  destruct (start_unfold pg s l f e)
    as (f0 & e0 & E & _ & _ & _ & _ & Hpo & Hfo & _).
  rewrite E. unfold Flow.runStep.
  destruct (runStepFrom_frame pg (skipn (currentStep f0) (steps f0)) f0 e0)
    as (Fp & Fo & _).
  split; congruence.
Qed.


